(** * canvas-png-compression: the PNG encoder, embedded and verified

    The development follows the two source modules of the encoder:
    the scanline predictor ([Filter]) and the chunk writer ([PngWriter]).
    JavaScript values are modelled as the code uses them: typed arrays as
    lists of bytes read and written by index, numbers as integers extended
    with [NaN] and [Infinity], exceptions as a result type. *)

From Stdlib Require Import ZArith Lia Strings.Byte.
From stdpp Require Import base option list strings gmap.

Local Open Scope Z_scope.

(** ** The JavaScript fragment the encoder runs on *)

Module JS.

(** A JavaScript number.  Every finite number the encoder computes is an
    integer far below 2^53, so doubles are exact and [Num] carries a [Z]
    (widths and heights are the integers of an [ImageData]); [NaN] arises
    from reading a typed array out of range ([undefined] coerced by [-] or
    [Math.abs]); [Infinity] is the initial minimum of the filter
    selection. *)
Inductive number : Type :=
| Num (z : Z)
| NaN
| Infinity
| NegInfinity.

Inductive error : Type :=
| RangeError
| TypeError
| Thrown (msg : string).

Inductive result (A : Type) : Type :=
| Ok (a : A)
| Throw (e : error).
Arguments Ok {A} a.
Arguments Throw {A} e.

Definition bind {A B} (m : result A) (k : A -> result B) : result B :=
  match m with
  | Ok a => k a
  | Throw e => Throw e
  end.

Abbreviation Uint8Array := (list byte).

Definition byte_to_Z (b : byte) : Z := Z.of_N (Byte.to_N b).

Definition byte_of_Z (z : Z) : byte :=
  default x00 (Byte.of_N (Z.to_N (z mod 256))).

(** ToUint8, applied by every store into a [Uint8Array]. *)
Definition ToUint8 (v : number) : byte :=
  match v with
  | Num z => byte_of_Z z
  | NaN | Infinity | NegInfinity => x00
  end.

Definition ToUint32 (v : number) : Z :=
  match v with
  | Num z => z mod 2 ^ 32
  | NaN | Infinity | NegInfinity => 0
  end.

Definition ToInt32 (v : number) : Z :=
  match v with
  | Num z => (z + 2 ^ 31) mod 2 ^ 32 - 2 ^ 31
  | NaN | Infinity | NegInfinity => 0
  end.

(** [a + b], [a - b], [Math.abs(a)]. *)
Definition add (a b : number) : number :=
  match a, b with
  | Num x, Num y => Num (x + y)
  | NaN, _ | _, NaN => NaN
  | Infinity, NegInfinity | NegInfinity, Infinity => NaN
  | Infinity, _ | _, Infinity => Infinity
  | NegInfinity, _ | _, NegInfinity => NegInfinity
  end.

Definition sub (a b : number) : number :=
  match a, b with
  | Num x, Num y => Num (x - y)
  | NaN, _ | _, NaN => NaN
  | Infinity, Infinity | NegInfinity, NegInfinity => NaN
  | Infinity, _ | _, NegInfinity => Infinity
  | NegInfinity, _ | _, Infinity => NegInfinity
  end.

Definition abs (a : number) : number :=
  match a with
  | Num x => Num (Z.abs x)
  | NaN => NaN
  | Infinity | NegInfinity => Infinity
  end.

(** [a < b] and [a <= b]: false as soon as one side is [NaN]. *)
Definition lt (a b : number) : bool :=
  match a, b with
  | Num x, Num y => x <? y
  | NaN, _ | _, NaN => false
  | _, NegInfinity | Infinity, _ => false
  | NegInfinity, _ | _, Infinity => true
  end.

Definition le (a b : number) : bool :=
  match a, b with
  | Num x, Num y => x <=? y
  | NaN, _ | _, NaN => false
  | NegInfinity, _ | _, Infinity => true
  | _, NegInfinity | Infinity, _ => false
  end.

(** [a >> k] (signed) and [a >>> k] (unsigned). *)
Definition sar (a : number) (k : Z) : number := Num (Z.shiftr (ToInt32 a) k).
Definition shr (a : number) (k : Z) : number := Num (Z.shiftr (ToUint32 a) k).

(** [a[i]]: the element, or [undefined] out of range, which every use in
    the encoder coerces to [NaN]. *)
Definition get (a : Uint8Array) (i : Z) : number :=
  if decide (0 <= i)
  then from_option (fun b => Num (byte_to_Z b)) NaN (a !! Z.to_nat i)
  else NaN.

(** [a[i] = v]: stores [ToUint8 v]; a store out of range is ignored. *)
Definition store (a : Uint8Array) (i : Z) (v : number) : Uint8Array :=
  if decide (0 <= i) then <[Z.to_nat i := ToUint8 v]> a else a.

(** [new Uint8Array(n)]: zero filled; a negative length throws.  An
    engine also refuses a length above its own limit, or one it has no
    memory for; neither is modelled, so that here an allocation of any
    non-negative length succeeds.  The properties of images of arbitrary
    dimensions are therefore stated of the buffer that [filter] returned,
    as a hypothesis; that [filter] returns is concluded only of images
    whose pixel buffer covers the declared rows. *)
Definition new_Uint8Array (n : Z) : result Uint8Array :=
  if decide (0 <= n) then Ok (replicate (Z.to_nat n) x00) else Throw RangeError.

(** [new Uint8Array(numbers)]. *)
Definition Uint8Array_from (l : list Z) : Uint8Array :=
  (fun z => ToUint8 (Num z)) <$> l.

Definition len (a : Uint8Array) : Z := Z.of_nat (length a).

(** Index clamping shared by [subarray] and [slice]. *)
Definition rel_index (n i : Z) : Z :=
  if decide (i < 0) then Z.max (n + i) 0 else Z.min i n.

Definition subarray (a : Uint8Array) (b e : Z) : Uint8Array :=
  let b' := rel_index (len a) b in
  let e' := rel_index (len a) e in
  take (Z.to_nat (e' - b')) (drop (Z.to_nat b') a).

Definition slice := subarray.

(** [to.set(src, offset)]: throws unless [src] fits. *)
Definition set (to src : Uint8Array) (offset : Z) : result Uint8Array :=
  if decide (0 <= offset /\ offset + len src <= len to)
  then Ok (take (Z.to_nat offset) to ++ src
           ++ drop (Z.to_nat (offset + len src)) to)
  else Throw RangeError.

(** [for (var i = lo; i < hi; i++) s = body i s]. *)
Fixpoint for_range {S : Type} (lo : Z) (n : nat) (body : Z -> S -> S) (s : S) : S :=
  match n with
  | O => s
  | Datatypes.S n' => for_range (lo + 1) n' body (body lo s)
  end.

Definition for_loop {S : Type} (lo hi : Z) (body : Z -> S -> S) (s : S) : S :=
  for_range lo (Z.to_nat (hi - lo)) body s.

(** The same loop with a body that may throw. *)
Fixpoint for_rangeM {S : Type} (lo : Z) (n : nat)
    (body : Z -> S -> result S) (s : S) : result S :=
  match n with
  | O => Ok s
  | Datatypes.S n' => bind (body lo s) (for_rangeM (lo + 1) n' body)
  end.

Definition for_loopM {S : Type} (lo hi : Z)
    (body : Z -> S -> result S) (s : S) : result S :=
  for_rangeM lo (Z.to_nat (hi - lo)) body s.

(** [parts.reduce(callback, init)] with a callback that may throw. *)
Fixpoint reduceM {A S : Type} (callback : S -> A -> result S) (l : list A) (s : S) : result S :=
  match l with
  | [] => Ok s
  | cu :: l' => bind (callback s cu) (reduceM callback l')
  end.

(** A plain object whose properties hold numbers or [undefined]. *)
Inductive value : Type :=
| VNum (z : Z)
| VUndefined.

Abbreviation object := (gmap string value).

(** [Object.assign(target, source)]: every own property of [source] is
    written over [target]. *)
Definition Object_assign (target source : object) : object := source ∪ target.

(** A string, as its sequence of 16-bit code units. *)
Abbreviation jsstring := (list Z).

Definition ToUint16 (v : number) : Z :=
  match v with
  | Num z => z mod 2 ^ 16
  | NaN | Infinity | NegInfinity => 0
  end.

(** [String.fromCharCode(v)]: the string of one code unit. *)
Definition String_fromCharCode (v : number) : jsstring := [ToUint16 v].

(** The code units of a literal of Latin-1 characters. *)
Definition literal (s : string) : jsstring :=
  (fun c => Z.of_N (Ascii.N_of_ascii c)) <$> String.list_ascii_of_string s.

End JS.

Import JS.

Notation "'try!' x ':=' m 'in' k" := (JS.bind m (fun x => k))
  (at level 10, x name, m at level 100, k at level 200).

(** ** PngWriter.ts: the static members of the class

    [Filter.ts] imports [PngWriter.copy], and [PngWriter.write] imports
    [filter]; the static members therefore come first and the methods
    ([Writer]) after the predictor. *)

Module PngWriter.

Definition PNG_SIGNATURE : list Z := [0x89; 0x50; 0x4e; 0x47; 0x0d; 0x0a; 0x1a; 0x0a].
Definition TYPE_IHDR : Z := 0x49484452.
Definition TYPE_IEND : Z := 0x49454e44.
Definition TYPE_IDAT : Z := 0x49444154.

Definition _writeAsBigEndian (arr : Uint8Array) (value : number) (startIndex : Z) : Uint8Array :=
  let arr := store arr startIndex (shr value 24) in
  let arr := store arr (startIndex + 1) (shr value 16) in
  let arr := store arr (startIndex + 2) (shr value 8) in
  store arr (startIndex + 3) (shr value 0).

(** [length] and [fromStartPos] are optional: [None] stands for an
    argument that is missing, [undefined] or [null]. *)
Definition copy (from to : Uint8Array) (toStartIndex : Z)
    (length fromStartPos : option Z) : result Uint8Array :=
  let length := default (len from) length in
  let fromStartPos := default 0 fromStartPos in
  set to (subarray from fromStartPos (fromStartPos + length)) toStartIndex.

End PngWriter.

(** ** Filter.ts: the predictor *)

Module Filter.

Definition paethPredictor (left above uppperLeft : number) : number :=
  let paeth := sub (add left above) uppperLeft in
  let pLeft := abs (sub paeth left) in
  let pAbove := abs (sub paeth above) in
  let pUpLeft := abs (sub paeth uppperLeft) in
  if le pLeft pAbove && le pLeft pUpLeft then left
  else if le pAbove pUpLeft then above
  else uppperLeft.

Definition filterNone (fromData : Uint8Array) (fromPos byteWidth : Z)
    (filteredData : Uint8Array) (filteredPos : Z) : result Uint8Array :=
  PngWriter.copy fromData filteredData filteredPos (Some byteWidth) (Some fromPos).

Definition filterSumNone (fromData : Uint8Array) (fromPos byteWidth : Z) : number :=
  let length := fromPos + byteWidth in
  for_loop fromPos length
    (fun i sum => add sum (abs (get fromData i))) (Num 0).

Definition filterSub (fromData : Uint8Array) (fromPos byteWidth : Z)
    (filteredData : Uint8Array) (filteredPos bpp : Z) : Uint8Array :=
  for_loop 0 byteWidth
    (fun i filteredData =>
       let left := if decide (bpp <= i) then get fromData (fromPos + i - bpp) else Num 0 in
       store filteredData (filteredPos + i) (sub (get fromData (fromPos + i)) left))
    filteredData.

Definition filterSumSub (fromData : Uint8Array) (fromPos byteWidth bpp : Z) : number :=
  for_loop 0 byteWidth
    (fun i sum =>
       let left := if decide (bpp <= i) then get fromData (fromPos + i - bpp) else Num 0 in
       let val := sub (get fromData (fromPos + i)) left in
       add sum (abs val))
    (Num 0).

Definition filterUp (fromData : Uint8Array) (fromPos byteWidth : Z)
    (filteredData : Uint8Array) (filteredPos : Z) : Uint8Array :=
  for_loop 0 byteWidth
    (fun i filteredData =>
       let up := if decide (0 < fromPos) then get fromData (fromPos + i - byteWidth) else Num 0 in
       store filteredData (filteredPos + i) (sub (get fromData (fromPos + i)) up))
    filteredData.

Definition filterSumUp (fromData : Uint8Array) (fromPos byteWidth : Z) : number :=
  let length := fromPos + byteWidth in
  for_loop fromPos length
    (fun i sum =>
       let up := if decide (0 < fromPos) then get fromData (i - byteWidth) else Num 0 in
       let val := sub (get fromData i) up in
       add sum (abs val))
    (Num 0).

Definition filterAvg (fromData : Uint8Array) (fromPos byteWidth : Z)
    (filteredData : Uint8Array) (filteredPos bpp : Z) : Uint8Array :=
  for_loop 0 byteWidth
    (fun i filteredData =>
       let left := if decide (bpp <= i) then get fromData (fromPos + i - bpp) else Num 0 in
       let up := if decide (0 < fromPos) then get fromData (fromPos + i - byteWidth) else Num 0 in
       store filteredData (filteredPos + i)
         (sub (get fromData (fromPos + i)) (sar (add left up) 1)))
    filteredData.

Definition filterSumAvg (fromData : Uint8Array) (fromPos byteWidth bpp : Z) : number :=
  for_loop 0 byteWidth
    (fun i sum =>
       let left := if decide (bpp <= i) then get fromData (fromPos + i - bpp) else Num 0 in
       let up := if decide (0 < fromPos) then get fromData (fromPos + i - byteWidth) else Num 0 in
       let val := sub (get fromData (fromPos + i)) (sar (add left up) 1) in
       add sum (abs val))
    (Num 0).

Definition filterPaeth (fromData : Uint8Array) (fromPos byteWidth : Z)
    (filteredData : Uint8Array) (filteredPos bpp : Z) : Uint8Array :=
  for_loop 0 byteWidth
    (fun i filteredData =>
       let left := if decide (bpp <= i) then get fromData (fromPos + i - bpp) else Num 0 in
       let up := if decide (0 < fromPos) then get fromData (fromPos + i - byteWidth) else Num 0 in
       let upleft :=
         if decide (0 < fromPos /\ bpp <= i)
         then get fromData (fromPos + i - (byteWidth + bpp)) else Num 0 in
       store filteredData (filteredPos + i)
         (sub (get fromData (fromPos + i)) (paethPredictor left up upleft)))
    filteredData.

Definition filterSumPaeth (fromData : Uint8Array) (fromPos byteWidth bpp : Z) : number :=
  for_loop 0 byteWidth
    (fun i sum =>
       let left := if decide (bpp <= i) then get fromData (fromPos + i - bpp) else Num 0 in
       let up := if decide (0 < fromPos) then get fromData (fromPos + i - byteWidth) else Num 0 in
       let upleft :=
         if decide (0 < fromPos /\ bpp <= i)
         then get fromData (fromPos + i - (byteWidth + bpp)) else Num 0 in
       let val := sub (get fromData (fromPos + i)) (paethPredictor left up upleft) in
       add sum (abs val))
    (Num 0).

(** An entry of the dispatch table.  The table's function types take
    [bpp] as an optional last argument, which [filterNone], [filterUp]
    and their sums do not declare and so ignore; [filterNone] is the one
    entry whose transform can throw (through [set]). *)
Record FilterType : Type := {
  entry_filter : Uint8Array -> Z -> Z -> Uint8Array -> Z -> Z -> result Uint8Array;
  entry_sum : Uint8Array -> Z -> Z -> Z -> number;
  entry_type : Z
}.

Definition FILTER_TYPES : list FilterType := [
  {| entry_filter := fun d p w f fp _ => filterNone d p w f fp;
     entry_sum := fun d p w _ => filterSumNone d p w;
     entry_type := 0 |};
  {| entry_filter := fun d p w f fp bpp => Ok (filterSub d p w f fp bpp);
     entry_sum := filterSumSub;
     entry_type := 1 |};
  {| entry_filter := fun d p w f fp _ => Ok (filterUp d p w f fp);
     entry_sum := fun d p w _ => filterSumUp d p w;
     entry_type := 2 |};
  {| entry_filter := fun d p w f fp bpp => Ok (filterAvg d p w f fp bpp);
     entry_sum := filterSumAvg;
     entry_type := 3 |};
  {| entry_filter := fun d p w f fp bpp => Ok (filterPaeth d p w f fp bpp);
     entry_sum := filterSumPaeth;
     entry_type := 4 |}
].

(** [FILTER_TYPES[j]]; a property access on a missing entry throws. *)
Definition FILTER_TYPES_at (j : Z) : result FilterType :=
  if decide (0 <= j)
  then from_option Ok (Throw TypeError) (FILTER_TYPES !! Z.to_nat j)
  else Throw TypeError.

Record ImageData : Type := {
  width : Z;
  height : Z;
  data : Uint8Array
}.

(** The variables the row loop of [filter] updates. *)
Record RowState : Type := {
  filtered : Uint8Array;
  filterTypePos : Z;
  fromPos : Z;
  filterType : Z
}.

(** The inner loop: the first entry, from index 1 on, whose sum is
    strictly below the running minimum. *)
Definition selectFilter (data : Uint8Array) (fromPos byteWidth bpp : Z)
    (filterType : Z) : result (number * Z) :=
  for_loopM 1 (Z.of_nat (length FILTER_TYPES))
    (fun j '(filterSumMin, filterType) =>
       try! entry := FILTER_TYPES_at j in
       let sum := entry_sum entry data fromPos byteWidth bpp in
       if lt sum filterSumMin then Ok (sum, j) else Ok (filterSumMin, filterType))
    (Infinity, filterType).

Definition filterRow (data : Uint8Array) (byteWidth bpp : Z) (st : RowState) : result RowState :=
  try! sel := selectFilter data (fromPos st) byteWidth bpp (filterType st) in
  let filterType := snd sel in
  try! filter := FILTER_TYPES_at filterType in
  let filtered := store (filtered st) (filterTypePos st) (Num (entry_type filter)) in
  try! filtered :=
    entry_filter filter data (fromPos st) byteWidth filtered (filterTypePos st + 1) bpp in
  Ok {| filtered := filtered;
        filterTypePos := filterTypePos st + (byteWidth + 1);
        fromPos := fromPos st + byteWidth;
        filterType := filterType |}.

Definition filter (imageData : ImageData) : result Uint8Array :=
  let bpp := 4 in
  let byteWidth := width imageData * bpp in
  try! filtered := new_Uint8Array ((byteWidth + 1) * height imageData) in
  try! st :=
    for_loopM 0 (height imageData)
      (fun _ st => filterRow (data imageData) byteWidth bpp st)
      {| filtered := filtered; filterTypePos := 0; fromPos := 0; filterType := 1 |} in
  Ok (Filter.filtered st).

End Filter.

(** ** PngWriter.ts: the methods of the class

    The two collaborators from pako are parameters: [crc32] is
    [crc32.default(crc, buf, len, pos)] and [deflate] is
    [pako.deflate(data, options)], which throws when the compressor
    rejects its options. *)

Module Writer.
Section Writer.

Variable crc32 : Z -> Uint8Array -> Z -> Z -> Z.
Variable deflate : Uint8Array -> object -> result Uint8Array.

Definition _writeChunk (type : Z) (data : option Uint8Array) : result Uint8Array :=
  let len := match data with Some d => JS.len d | None => 0 end in
  try! buf := new_Uint8Array (len + 12) in
  let buf := PngWriter._writeAsBigEndian buf (Num len) 0 in
  let buf := PngWriter._writeAsBigEndian buf (Num type) 4 in
  try! buf := match data with
              | Some d => PngWriter.copy d buf 8 None None
              | None => Ok buf
              end in
  let partWithoutLen := slice buf 4 (JS.len buf - 4) in
  Ok (PngWriter._writeAsBigEndian buf
        (Num (crc32 0 partWithoutLen (JS.len partWithoutLen) 0)) (JS.len buf - 4)).

Definition writeIHDRChunk (width height : Z) : result Uint8Array :=
  try! ihdr := new_Uint8Array 13 in
  let ihdr := PngWriter._writeAsBigEndian ihdr (Num width) 0 in
  let ihdr := PngWriter._writeAsBigEndian ihdr (Num height) 4 in
  let ihdr := store ihdr 8 (Num 8) in
  let ihdr := store ihdr 9 (Num 6) in
  let ihdr := store ihdr 10 (Num 0) in
  let ihdr := store ihdr 11 (Num 0) in
  let ihdr := store ihdr 12 (Num 0) in
  _writeChunk PngWriter.TYPE_IHDR (Some ihdr).

Definition writeIDATChunk (data : Uint8Array) : result Uint8Array :=
  _writeChunk PngWriter.TYPE_IDAT (Some data).

Definition writeIENDChunk : result Uint8Array :=
  _writeChunk PngWriter.TYPE_IEND None.

(** The deprecated predictor that [filter] replaced: every row gets
    filter type 0 and a copy of its scanline.  The loop updates
    [filtered], [filterTypePos] and [fromPos]. *)
Definition _filterData (imageData : Filter.ImageData) : result Uint8Array :=
  let filterType := 0 in
  let byteWidth := Filter.width imageData * 4 in
  try! filtered := new_Uint8Array ((byteWidth + 1) * Filter.height imageData) in
  try! st :=
    for_loopM 0 (Filter.height imageData)
      (fun _ '(filtered, filterTypePos, fromPos) =>
         let filtered := store filtered filterTypePos (Num filterType) in
         try! filtered :=
           PngWriter.copy (Filter.data imageData) filtered (filterTypePos + 1)
             (Some byteWidth) (Some fromPos) in
         Ok (filtered, filterTypePos + (byteWidth + 1), fromPos + byteWidth))
      (filtered, 0, 0) in
  Ok (fst (fst st)).

(** The option defaults of [write], the target of [Object.assign]. *)
Definition defaults : object :=
  <["level"%string := VNum 0]>
    (<["windowBits"%string := VNum 15]>
       (<["chunkSize"%string := VNum (32 * 1024)]>
          (<["strategy"%string := VNum 3]> ∅))).

(** The options [write] forwards to the compressor; [None] is a missing
    (or otherwise falsy) [options] argument, replaced by [{}]. *)
Definition forwarded (options : option object) : object :=
  let options := default ∅ options in
  Object_assign defaults options.

Definition write (imageData : Filter.ImageData) (options : option object) : result Uint8Array :=
  let parts : list Uint8Array := [] in
  let parts := parts ++ [Uint8Array_from PngWriter.PNG_SIGNATURE] in
  try! ihdr := writeIHDRChunk (Filter.width imageData) (Filter.height imageData) in
  let parts := parts ++ [ihdr] in
  try! filtered := Filter.filter imageData in
  try! compressed := deflate filtered (forwarded options) in
  try! idat := writeIDATChunk compressed in
  let parts := parts ++ [idat] in
  try! iend := writeIENDChunk in
  let parts := parts ++ [iend] in
  let bufferSize := foldl (fun pr cu => JS.len cu + pr) 0 parts in
  try! buffer := new_Uint8Array bufferSize in
  try! out :=
    reduceM (fun '(pr, offset) cu =>
               try! pr := set pr cu offset in
               Ok (pr, offset + JS.len cu))
            parts (buffer, 0) in
  Ok (fst out).

End Writer.
End Writer.

(** ** The PNG filter method 0, as the specification words it

    These definitions follow the specification (and the PNG text quoted at
    the head of [Filter.ts]), not the code: a scanline [R], the prior
    scanline [P], the five predictors, the signed residual and its cost,
    and the inverse of each filter. *)

Module Spec.

Inductive FilterKind : Type := NoFilter | Sub | Up | Average | Paeth.

Definition code (k : FilterKind) : Z :=
  match k with
  | NoFilter => 0
  | Sub => 1
  | Up => 2
  | Average => 3
  | Paeth => 4
  end.

Definition bpp : Z := 4.

Definition byteWidth (img : Filter.ImageData) : Z := Filter.width img * bpp.

(** The PixelBuffer invariant of the data model. *)
Definition valid (img : Filter.ImageData) : Prop :=
  0 < Filter.width img /\ 0 < Filter.height img /\
  len (Filter.data img) = Filter.width img * Filter.height img * 4.

Definition scanline (img : Filter.ImageData) (r : Z) : list byte :=
  take (Z.to_nat (byteWidth img)) (drop (Z.to_nat (r * byteWidth img)) (Filter.data img)).

(** Row 0 has no previous row: it is treated as all zeros. *)
Definition prior (img : Filter.ImageData) (r : Z) : list byte :=
  if decide (r = 0) then replicate (Z.to_nat (byteWidth img)) x00
  else scanline img (r - 1).

(** Byte [x] of a row; zero to the left of the row. *)
Definition byteAt (row : list byte) (x : Z) : Z :=
  if decide (0 <= x) then from_option byte_to_Z 0 (row !! Z.to_nat x) else 0.

Definition PaethPredictor (a b c : Z) : Z :=
  let p := a + b - c in
  let pa := Z.abs (p - a) in
  let pb := Z.abs (p - b) in
  let pc := Z.abs (p - c) in
  if decide (pa <= pb /\ pa <= pc) then a
  else if decide (pb <= pc) then b
  else c.

Definition predictor (k : FilterKind) (R P : list byte) (x : Z) : Z :=
  match k with
  | NoFilter => 0
  | Sub => byteAt R (x - bpp)
  | Up => byteAt P x
  | Average => (byteAt R (x - bpp) + byteAt P x) / 2
  | Paeth => PaethPredictor (byteAt R (x - bpp)) (byteAt P x) (byteAt P (x - bpp))
  end.

(** The signed residual, before any wrap modulo 256. *)
Definition residual (k : FilterKind) (R P : list byte) (x : Z) : Z :=
  byteAt R x - predictor k R P x.

(** [F(x)]: the residual modulo 256. *)
Definition filteredByte (k : FilterKind) (R P : list byte) (x : Z) : byte :=
  byte_of_Z (residual k R P x).

Definition filterScanline (k : FilterKind) (R P : list byte) : list byte :=
  filteredByte k R P <$> seqZ 0 (len R).

Fixpoint sum_range (lo : Z) (n : nat) (g : Z -> Z) : Z :=
  match n with
  | O => 0
  | S n' => g lo + sum_range (lo + 1) n' g
  end.

(** The selection heuristic: the sum of the magnitudes of the signed
    residuals of a row. *)
Definition cost (k : FilterKind) (R P : list byte) : Z :=
  sum_range 0 (length R) (fun x => Z.abs (residual k R P x)).

(** The cheapest of Sub, Up, Average, Paeth; a later candidate replaces
    an earlier one only when strictly cheaper. *)
Definition cheapest (R P : list byte) : FilterKind :=
  foldl (fun best k => if decide (cost k R P < cost best R P) then k else best)
        Sub [Up; Average; Paeth].

(** The inverse of a filter: [Raw(x) = F(x) + predictor(x) mod 256], the
    predictor taken over the bytes already decoded. *)
Definition unfilterByte (k : FilterKind) (P decoded : list byte) (f : byte) : byte :=
  byte_of_Z (byte_to_Z f + predictor k decoded P (len decoded)).

Fixpoint unfilterScanline (k : FilterKind) (P F decoded : list byte) : list byte :=
  match F with
  | [] => decoded
  | f :: F' => unfilterScanline k P F' (decoded ++ [unfilterByte k P decoded f])
  end.

Definition kindOf (t : byte) : option FilterKind :=
  match t with
  | x00 => Some NoFilter
  | x01 => Some Sub
  | x02 => Some Up
  | x03 => Some Average
  | x04 => Some Paeth
  | _ => None
  end.

(** A decoder for a whole filtered buffer of [rows] rows of [bw] bytes:
    each row is decoded by the inverse of the filter its first byte names,
    against the row decoded before it. *)
Fixpoint unfilterRows (bw rows : nat) (P buf : list byte) : option (list byte) :=
  match rows with
  | O => Some []
  | S rows' =>
      match buf with
      | [] => None
      | t :: rest =>
          match kindOf t with
          | None => None
          | Some k =>
              let R := unfilterScanline k P (take bw rest) [] in
              match unfilterRows bw rows' R (drop bw rest) with
              | None => None
              | Some below => Some (R ++ below)
              end
          end
      end
  end.

Definition unfilter (width height : Z) (buf : list byte) : option (list byte) :=
  let bw := Z.to_nat (width * bpp) in
  unfilterRows bw (Z.to_nat height) (replicate bw x00) buf.

(** Row [r] of a filtered buffer: the filter-type byte and the
    [byteWidth] transformed bytes. *)
Definition filteredRow (bw : Z) (buf : list byte) (r : Z) : list byte :=
  take (Z.to_nat (bw + 1)) (drop (Z.to_nat (r * (bw + 1))) buf).

(** Row [r] as the predictor must emit it: the code of the cheapest
    filter, then the scanline under that filter. *)
Definition encodedRow (img : Filter.ImageData) (r : Z) : list byte :=
  let R := scanline img r in
  let P := prior img r in
  let k := cheapest R P in
  byte_of_Z (code k) :: filterScanline k R P.

(** A 32-bit unsigned integer in big-endian byte order. *)
Definition uint32_be (v : Z) : list byte :=
  [byte_of_Z (v mod 2 ^ 32 / 2 ^ 24); byte_of_Z (v mod 2 ^ 32 / 2 ^ 16);
   byte_of_Z (v mod 2 ^ 32 / 2 ^ 8); byte_of_Z (v mod 2 ^ 32)].

Definition uint32_of_be (bs : list byte) : Z :=
  foldl (fun acc b => acc * 256 + byte_to_Z b) 0 bs.

(** The chunk wire format: length, type tag, payload, and the CRC-32
    (seed 0) of the type tag followed by the payload. *)
Definition chunk (crc32 : Z -> list byte -> Z -> Z -> Z)
    (type : Z) (payload : list byte) : list byte :=
  uint32_be (len payload) ++ uint32_be type ++ payload
  ++ uint32_be (crc32 0 (uint32_be type ++ payload) (4 + len payload) 0).

Definition SIGNATURE : list byte := [x89; x50; x4e; x47; x0d; x0a; x1a; x0a].

(** Width, height, bit depth 8, colour type 6, compression method 0,
    filter method 0, interlace method 0. *)
Definition ihdrPayload (width height : Z) : list byte :=
  uint32_be width ++ uint32_be height ++ [x08; x06; x00; x00; x00].

Definition png (crc32 : Z -> list byte -> Z -> Z -> Z)
    (width height : Z) (compressed : list byte) : list byte :=
  SIGNATURE ++ chunk crc32 0x49484452 (ihdrPayload width height)
  ++ chunk crc32 0x49444154 compressed ++ chunk crc32 0x49454e44 [].

End Spec.

(** ** Base64Writer.ts

    [btoa] belongs to the host and is a parameter; it throws on a string
    with a code unit above 255. *)

Module Base64Writer.
Section Base64Writer.

Variable btoa : jsstring -> result jsstring.

Definition bytesToBase64 (type : jsstring) (buffer : Uint8Array) : result jsstring :=
  let binary :=
    for_loop 0 (len buffer)
      (fun i binary => binary ++ String_fromCharCode (get buffer i)) [] in
  try! encoded := btoa binary in
  Ok (type ++ encoded).

End Base64Writer.
End Base64Writer.

(** ** main.ts: the replacement of [toDataURL]

    The canvas is represented by what the function takes from it: the
    [ImageData] that [getImageData] returns and the result of the
    original [toDataURL].  [level] stands for the value of
    [Math.max(Math.min(Math.round(9 - (encoderOptions / (1 / 9))), 9), 0)],
    a floating-point computation that is left outside the model. *)

Module Main.
Section Main.

Variable crc32 : Z -> Uint8Array -> Z -> Z -> Z.
Variable deflate : Uint8Array -> object -> result Uint8Array.
Variable btoa : jsstring -> result jsstring.

(** [Object.assign({}, options, { level: level })], with the
    [options || {}] of [replaceToDataURL]. *)
Definition writeOptions (options : option object) (level : value) : object :=
  let options := default ∅ options in
  Object_assign (Object_assign ∅ options) {[ "level"%string := level ]}.

Definition toDataURL (options : option object) (imageData : Filter.ImageData)
    (toDataURLOld : result jsstring) (type : option jsstring) (level : value)
    : result jsstring :=
  if decide (type = None \/ type = Some (literal "image/png"))
  then
    try! png := Writer.write crc32 deflate imageData (Some (writeOptions options level)) in
    Base64Writer.bytesToBase64 btoa (literal "data:image/png;base64,") png
  else toDataURLOld.

End Main.
End Main.

(** ** A reader for the chunk container

    These definitions follow the PNG container format, not the code: a
    reader that splits a byte stream into its chunks, to state that what
    the writer emits can be read back. *)

Module Reader.

(** One chunk off the front: type, payload, stored CRC, and the rest. *)
Definition readChunk (bs : list byte) : option (Z * list byte * Z * list byte) :=
  let n := Spec.uint32_of_be (take 4 bs) in
  if decide (12 + n <= len bs)
  then Some (Spec.uint32_of_be (take 4 (drop 4 bs)),
             take (Z.to_nat n) (drop 8 bs),
             Spec.uint32_of_be (take 4 (drop (Z.to_nat (8 + n)) bs)),
             drop (Z.to_nat (12 + n)) bs)
  else None.

Fixpoint readChunks (fuel : nat) (bs : list byte) : option (list (Z * list byte * Z)) :=
  match bs with
  | [] => Some []
  | _ :: _ =>
      match fuel with
      | O => None
      | S fuel' =>
          match readChunk bs with
          | None => None
          | Some (type, payload, crc, rest) =>
              match readChunks fuel' rest with
              | None => None
              | Some chunks => Some ((type, payload, crc) :: chunks)
              end
          end
      end
  end.

(** The chunks of a stream that starts with the PNG signature. *)
Definition readPng (bs : list byte) : option (list (Z * list byte * Z)) :=
  if decide (byte_to_Z <$> take 8 bs = PngWriter.PNG_SIGNATURE)
  then readChunks (length bs) (drop 8 bs)
  else None.

End Reader.

(** ** Sample inputs *)

Module Samples.

(** Two identical red pixels in one row. *)
Definition red_2x1 : Filter.ImageData :=
  {| Filter.width := 2; Filter.height := 1;
     Filter.data := [xff; x00; x00; xff; xff; x00; x00; xff] |}.

(** One red pixel. *)
Definition red_1x1 : Filter.ImageData :=
  {| Filter.width := 1; Filter.height := 1;
     Filter.data := [xff; x00; x00; xff] |}.

(** Two images of one column and three rows that differ in row 0 only. *)
Definition column_a : Filter.ImageData :=
  {| Filter.width := 1; Filter.height := 3;
     Filter.data := [x01; x02; x03; x04; x05; x06; x07; x08; x09; x09; x09; x09] |}.

Definition column_b : Filter.ImageData :=
  {| Filter.width := 1; Filter.height := 3;
     Filter.data := [xc8; x01; x01; x01; x05; x06; x07; x08; x09; x09; x09; x09] |}.

(** One column, two equal rows. *)
Definition twin_rows : Filter.ImageData :=
  {| Filter.width := 1; Filter.height := 2;
     Filter.data := [x0a; x14; x1e; x28; x0a; x14; x1e; x28] |}.

(** No pixels at all, and a buffer that is not empty. *)
Definition empty_image : Filter.ImageData :=
  {| Filter.width := 0; Filter.height := 0; Filter.data := [x01; x02; x03] |}.

(** Two images declared one column by three rows over buffers of two
    rows only; they differ in row 0. *)
Definition truncated_a : Filter.ImageData :=
  {| Filter.width := 1; Filter.height := 3;
     Filter.data := [x01; x02; x03; x04; x05; x06; x07; x08] |}.

Definition truncated_b : Filter.ImageData :=
  {| Filter.width := 1; Filter.height := 3;
     Filter.data := [xc8; x01; x01; x01; x05; x06; x07; x08] |}.

(** One row declared three pixels wide over a buffer of one pixel. *)
Definition short_buffer : Filter.ImageData :=
  {| Filter.width := 3; Filter.height := 1; Filter.data := [xff; x00; x00; xff] |}.

(** The options [{level: 5}] and [{strategy: 1}]. *)
Definition level_five : object := {[ "level"%string := VNum 5 ]}.
Definition strategy_one : object := {[ "strategy"%string := VNum 1 ]}.

(** Stand-ins for the two collaborators, for running the encoder on the
    samples: a checksum that is always zero and a compressor that
    returns its input. *)
Definition crc_zero (crc : Z) (buf : Uint8Array) (len pos : Z) : Z := 0.
Definition deflate_identity (data : Uint8Array) (options : object) : result Uint8Array :=
  Ok data.

End Samples.

(** * Properties *)

(** ** Bytes and numbers *)

Section Bytes.

Lemma byte_to_Z_range (b : byte) : 0 <= byte_to_Z b < 256.
Proof.
  unfold byte_to_Z. pose proof (Byte.to_N_bounded b) as Hb.
  split; [apply N2Z.is_nonneg | lia].
Qed.

Lemma byte_of_to_Z (b : byte) : byte_of_Z (byte_to_Z b) = b.
Proof.
  unfold byte_of_Z. rewrite Z.mod_small by apply byte_to_Z_range.
  unfold byte_to_Z. rewrite N2Z.id, Byte.of_to_N. reflexivity.
Qed.

Lemma byte_to_of_Z (z : Z) : byte_to_Z (byte_of_Z z) = z mod 256.
Proof.
  unfold byte_of_Z, byte_to_Z.
  pose proof (Z.mod_pos_bound z 256 eq_refl) as Hz.
  destruct (Byte.of_N (Z.to_N (z mod 256))) as [b|] eqn:E.
  - apply Byte.to_of_N in E. simpl. rewrite E. lia.
  - apply Byte.of_N_None_iff in E. lia.
Qed.

Lemma byte_of_Z_mod (z : Z) : byte_of_Z (z mod 256) = byte_of_Z z.
Proof. unfold byte_of_Z. rewrite Z.mod_mod by lia. reflexivity. Qed.

Lemma byte_of_Z_congr (a b : Z) : a mod 256 = b mod 256 -> byte_of_Z a = byte_of_Z b.
Proof. unfold byte_of_Z. intros ->. reflexivity. Qed.

Lemma byte_to_Z_inj (a b : byte) : byte_to_Z a = byte_to_Z b -> a = b.
Proof. intros H. rewrite <- (byte_of_to_Z a), <- (byte_of_to_Z b), H. reflexivity. Qed.

(** Adding the predictor back undoes the subtraction, modulo 256. *)
Lemma byte_add_sub (r : byte) (p : Z) :
  byte_of_Z (byte_to_Z (byte_of_Z (byte_to_Z r - p)) + p) = r.
Proof.
  rewrite byte_to_of_Z. rewrite <- (byte_of_to_Z r) at 2.
  apply byte_of_Z_congr.
  rewrite Z.add_mod_idemp_l by lia. f_equal. lia.
Qed.

End Bytes.

(** ** Stores and loops *)

Section Loops.

Lemma length_store (a : Uint8Array) (i : Z) (v : number) :
  length (store a i v) = length a.
Proof. unfold store. case_decide; [apply length_insert | reflexivity]. Qed.

Lemma lookup_store (a : Uint8Array) (i : Z) (v : number) (k : nat) :
  store a i v !! k =
    if decide (i = Z.of_nat k /\ (k < length a)%nat) then Some (ToUint8 v) else a !! k.
Proof.
  unfold store. case_decide as Hi.
  - rewrite list_lookup_insert. repeat case_decide; try reflexivity; exfalso; lia.
  - case_decide; [exfalso; lia | reflexivity].
Qed.

Lemma get_lookup (a : Uint8Array) (i : Z) (b : byte) :
  0 <= i -> a !! Z.to_nat i = Some b -> get a i = Num (byte_to_Z b).
Proof. intros Hi Hb. unfold get. rewrite decide_True by lia. rewrite Hb. reflexivity. Qed.

Lemma for_range_ext {S : Type} (f g : Z -> S -> S) (n : nat) (lo : Z) (s : S) :
  (forall i s', lo <= i < lo + Z.of_nat n -> f i s' = g i s') ->
  for_range lo n f s = for_range lo n g s.
Proof.
  revert lo s. induction n as [|n IH]; intros lo s H; simpl; [reflexivity|].
  rewrite H by lia. apply IH. intros i s' Hi. apply H. lia.
Qed.

(** A loop of stores [a[pos + i] = f i] leaves the length alone ... *)
Lemma length_for_range_store (f : Z -> number) (pos : Z) (n : nat) (lo : Z) (a : Uint8Array) :
  length (for_range lo n (fun i a' => store a' (pos + i) (f i)) a) = length a.
Proof.
  revert lo a. induction n as [|n IH]; intros lo a; simpl; [reflexivity|].
  rewrite IH. apply length_store.
Qed.

(** ... and writes exactly the cells [pos + lo .. pos + lo + n - 1]. *)
Lemma lookup_for_range_store (f : Z -> number) (pos : Z) (n : nat) (lo : Z)
    (a : Uint8Array) (k : nat) :
  for_range lo n (fun i a' => store a' (pos + i) (f i)) a !! k =
    if decide (pos + lo <= Z.of_nat k < pos + lo + Z.of_nat n /\ (k < length a)%nat)
    then Some (ToUint8 (f (Z.of_nat k - pos)))
    else a !! k.
Proof.
  revert lo a. induction n as [|n IH]; intros lo a; simpl.
  - rewrite decide_False by lia. reflexivity.
  - rewrite IH, length_store, lookup_store.
    repeat case_decide; try reflexivity; try (exfalso; lia).
    do 3 f_equal. lia.
Qed.

(** A loop [sum += Math.abs(val)] over integer values adds their
    magnitudes. *)
Lemma for_range_sum (v : Z -> number) (z : Z -> Z) (n : nat) (lo s0 : Z) :
  (forall i, lo <= i < lo + Z.of_nat n -> v i = Num (z i)) ->
  for_range lo n (fun i sum => add sum (abs (v i))) (Num s0) =
    Num (s0 + Spec.sum_range lo n (fun i => Z.abs (z i))).
Proof.
  revert lo s0. induction n as [|n IH]; intros lo s0 H; simpl.
  - f_equal. lia.
  - rewrite H by lia. simpl. rewrite IH by (intros; apply H; lia).
    f_equal. lia.
Qed.

Lemma sum_range_ext (f g : Z -> Z) (n : nat) (lo : Z) :
  (forall i, lo <= i < lo + Z.of_nat n -> f i = g i) ->
  Spec.sum_range lo n f = Spec.sum_range lo n g.
Proof.
  revert lo. induction n as [|n IH]; intros lo H; simpl; [reflexivity|].
  rewrite H by lia. f_equal. apply IH. intros; apply H; lia.
Qed.

Lemma sum_range_shift (g : Z -> Z) (n : nat) (lo d : Z) :
  Spec.sum_range (lo + d) n g = Spec.sum_range lo n (fun i => g (i + d)).
Proof.
  revert lo. induction n as [|n IH]; intros lo; simpl; [reflexivity|].
  f_equal. replace (lo + d + 1) with (lo + 1 + d) by lia. apply IH.
Qed.

(** A loop invariant for loops whose body may throw: if the body keeps
    the invariant, the loop does not throw and ends in a state that
    satisfies it. *)
Lemma for_rangeM_invariant {St : Type} (I : Z -> St -> Prop)
    (body : Z -> St -> result St) (n : nat) (lo : Z) (s : St) :
  I lo s ->
  (forall i s', lo <= i < lo + Z.of_nat n -> I i s' ->
                exists s'', body i s' = Ok s'' /\ I (i + 1) s'') ->
  exists s', for_rangeM lo n body s = Ok s' /\ I (lo + Z.of_nat n) s'.
Proof.
  revert lo s. induction n as [|n IH]; intros lo s H0 Hstep; simpl.
  - exists s. split; [reflexivity|]. replace (lo + Z.of_nat 0) with lo by lia. exact H0.
  - destruct (Hstep lo s ltac:(lia) H0) as (s1 & -> & H1). simpl.
    destruct (IH (lo + 1) s1 H1) as (s' & Hs' & HI).
    + intros i s'' Hi. apply Hstep. lia.
    + exists s'. split; [exact Hs'|].
      replace (lo + Z.of_nat (S n)) with (lo + 1 + Z.of_nat n) by lia. exact HI.
Qed.

End Loops.

(** ** The predictor on one scanline *)

Section Scanline.

Import Filter.

Lemma byteAt_range (row : list byte) (x : Z) : 0 <= Spec.byteAt row x < 256.
Proof.
  unfold Spec.byteAt. case_decide; [|lia].
  destruct (row !! Z.to_nat x) as [b|]; simpl; [apply byte_to_Z_range | lia].
Qed.

Lemma byteAt_lookup (row : list byte) (x : nat) (b : byte) :
  row !! x = Some b -> Spec.byteAt row (Z.of_nat x) = byte_to_Z b.
Proof.
  intros H. unfold Spec.byteAt. rewrite decide_True by lia.
  rewrite Nat2Z.id, H. reflexivity.
Qed.

Lemma byteAt_zeros (n : nat) (x : Z) : Spec.byteAt (replicate n x00) x = 0.
Proof.
  unfold Spec.byteAt. case_decide; [|reflexivity].
  destruct (replicate n x00 !! Z.to_nat x) as [b|] eqn:E; [|reflexivity].
  apply lookup_replicate in E as [-> _]. reflexivity.
Qed.

(** The code's predictor on numbers refines the specification's on
    integers. *)
Lemma paethPredictor_Num (a b c : Z) :
  paethPredictor (Num a) (Num b) (Num c) = Num (Spec.PaethPredictor a b c).
Proof.
  unfold paethPredictor, Spec.PaethPredictor. simpl.
  destruct (Z.leb_spec (Z.abs (a + b - c - a)) (Z.abs (a + b - c - b)));
    destruct (Z.leb_spec (Z.abs (a + b - c - a)) (Z.abs (a + b - c - c)));
    destruct (Z.leb_spec (Z.abs (a + b - c - b)) (Z.abs (a + b - c - c)));
    simpl; repeat case_decide; try reflexivity; exfalso; lia.
Qed.

Lemma sar_average (l u : Z) :
  0 <= l < 256 -> 0 <= u < 256 -> sar (add (Num l) (Num u)) 1 = Num ((l + u) / 2).
Proof.
  intros Hl Hu. unfold sar. simpl ToInt32.
  replace ((l + u + 2 ^ 31) mod 2 ^ 32 - 2 ^ 31) with (l + u).
  - rewrite Z.shiftr_div_pow2 by lia. reflexivity.
  - rewrite Z.mod_small; lia.
Qed.

(** *** Reading the pixel buffer of an image whose buffer covers
    [height] rows of [byteWidth] bytes *)

Variable img : ImageData.
Let bw := Spec.byteWidth img.

Hypothesis Hwidth : 0 <= width img.
Hypothesis Hcovers : bw * height img <= len (data img).

Variable r : Z.
Hypothesis Hrow : 0 <= r < height img.

Let R := Spec.scanline img r.
Let P := Spec.prior img r.

Lemma length_scanline : length R = Z.to_nat bw.
Proof.
  subst R. unfold Spec.scanline. fold bw.
  rewrite length_take, length_drop. unfold len in Hcovers. nia.
Qed.

Lemma get_scanline (x : Z) :
  0 <= x < bw -> get (data img) (r * bw + x) = Num (Spec.byteAt R x).
Proof.
  intros Hx. unfold get, Spec.byteAt. rewrite !decide_True by nia.
  subst R. unfold Spec.scanline. fold bw.
  rewrite lookup_take_lt by lia. rewrite lookup_drop.
  replace (Z.to_nat (r * bw) + Z.to_nat x)%nat with (Z.to_nat (r * bw + x)) by nia.
  destruct (data img !! Z.to_nat (r * bw + x)) as [b|] eqn:E; [reflexivity|].
  apply lookup_ge_None in E. unfold len in Hcovers. nia.
Qed.

Lemma get_prior (x : Z) :
  0 <= x < bw -> 0 < r -> get (data img) (r * bw + x - bw) = Num (Spec.byteAt P x).
Proof.
  intros Hx Hr. unfold get, Spec.byteAt. rewrite !decide_True by nia.
  subst P. unfold Spec.prior. rewrite decide_False by lia.
  unfold Spec.scanline. fold bw.
  rewrite lookup_take_lt by lia. rewrite lookup_drop.
  replace (Z.to_nat ((r - 1) * bw) + Z.to_nat x)%nat with (Z.to_nat (r * bw + x - bw)) by nia.
  destruct (data img !! Z.to_nat (r * bw + x - bw)) as [b|] eqn:E; [reflexivity|].
  apply lookup_ge_None in E. unfold len in Hcovers. nia.
Qed.

Lemma prior_first (x : Z) : r = 0 -> Spec.byteAt P x = 0.
Proof.
  intros Hr. subst P. unfold Spec.prior. rewrite decide_True by exact Hr.
  apply byteAt_zeros.
Qed.

Lemma byteAt_left_of_row (row : list byte) (x : Z) : x < 0 -> Spec.byteAt row x = 0.
Proof. intros Hx. unfold Spec.byteAt. rewrite decide_False by lia. reflexivity. Qed.

(** The three neighbours as the code reads them. *)
Lemma read_left (i : Z) :
  0 <= i < bw ->
  (if decide (4 <= i) then get (data img) (r * bw + i - 4) else Num 0)
  = Num (Spec.byteAt R (i - Spec.bpp)).
Proof.
  intros Hi. unfold Spec.bpp. case_decide.
  - replace (r * bw + i - 4) with (r * bw + (i - 4)) by lia.
    apply get_scanline. lia.
  - rewrite byteAt_left_of_row by lia. reflexivity.
Qed.

Lemma read_up (i : Z) :
  0 <= i < bw ->
  (if decide (0 < r * bw) then get (data img) (r * bw + i - bw) else Num 0)
  = Num (Spec.byteAt P i).
Proof.
  intros Hi. case_decide.
  - apply get_prior; [exact Hi | nia].
  - rewrite prior_first by nia. reflexivity.
Qed.

Lemma read_upleft (i : Z) :
  0 <= i < bw ->
  (if decide (0 < r * bw /\ 4 <= i) then get (data img) (r * bw + i - (bw + 4)) else Num 0)
  = Num (Spec.byteAt P (i - Spec.bpp)).
Proof.
  intros Hi. unfold Spec.bpp. case_decide as H.
  - replace (r * bw + i - (bw + 4)) with (r * bw + (i - 4) - bw) by lia.
    apply get_prior; [lia | nia].
  - destruct (decide (4 <= i)).
    + rewrite prior_first by nia. reflexivity.
    + rewrite byteAt_left_of_row by lia. reflexivity.
Qed.

Lemma residual_range (k : Spec.FilterKind) (row prev : list byte) (x : Z) :
  -256 < Spec.residual k row prev x < 256.
Proof.
  unfold Spec.residual, Spec.predictor, Spec.PaethPredictor.
  pose proof (byteAt_range row x). pose proof (byteAt_range row (x - Spec.bpp)).
  pose proof (byteAt_range prev x). pose proof (byteAt_range prev (x - Spec.bpp)).
  destruct k; repeat case_decide; try lia.
  pose proof (Z.div_pos (Spec.byteAt row (x - Spec.bpp) + Spec.byteAt prev x) 2).
  pose proof (Z.div_lt_upper_bound
                (Spec.byteAt row (x - Spec.bpp) + Spec.byteAt prev x) 2 256).
  lia.
Qed.

(** The value each filter stores (and each sum accumulates) at column
    [i] is the specification's signed residual. *)
Lemma value_Sub (i : Z) :
  0 <= i < bw ->
  sub (get (data img) (r * bw + i))
      (if decide (4 <= i) then get (data img) (r * bw + i - 4) else Num 0)
  = Num (Spec.residual Spec.Sub R P i).
Proof. intros Hi. rewrite read_left, get_scanline by exact Hi. reflexivity. Qed.

Lemma value_Up (i : Z) :
  0 <= i < bw ->
  sub (get (data img) (r * bw + i))
      (if decide (0 < r * bw) then get (data img) (r * bw + i - bw) else Num 0)
  = Num (Spec.residual Spec.Up R P i).
Proof. intros Hi. rewrite read_up, get_scanline by exact Hi. reflexivity. Qed.

Lemma value_Average (i : Z) :
  0 <= i < bw ->
  sub (get (data img) (r * bw + i))
      (sar (add (if decide (4 <= i) then get (data img) (r * bw + i - 4) else Num 0)
                (if decide (0 < r * bw) then get (data img) (r * bw + i - bw) else Num 0)) 1)
  = Num (Spec.residual Spec.Average R P i).
Proof.
  intros Hi. rewrite read_left, read_up, get_scanline by exact Hi.
  rewrite sar_average by apply byteAt_range. reflexivity.
Qed.

Lemma value_Paeth (i : Z) :
  0 <= i < bw ->
  sub (get (data img) (r * bw + i))
      (paethPredictor
         (if decide (4 <= i) then get (data img) (r * bw + i - 4) else Num 0)
         (if decide (0 < r * bw) then get (data img) (r * bw + i - bw) else Num 0)
         (if decide (0 < r * bw /\ 4 <= i)
          then get (data img) (r * bw + i - (bw + 4)) else Num 0))
  = Num (Spec.residual Spec.Paeth R P i).
Proof.
  intros Hi. rewrite read_left, read_up, read_upleft, get_scanline by exact Hi.
  rewrite paethPredictor_Num. reflexivity.
Qed.

(** A loop that stores such values writes the filtered scanline ... *)
Lemma store_loop_row (f : Z -> number) (k : Spec.FilterKind)
    (dst : Uint8Array) (pos : Z) (idx : nat) :
  (forall i, 0 <= i < bw -> f i = Num (Spec.residual k R P i)) ->
  for_loop 0 bw (fun i a => store a (pos + i) (f i)) dst !! idx =
    if decide (pos <= Z.of_nat idx < pos + bw /\ (idx < length dst)%nat)
    then Some (Spec.filteredByte k R P (Z.of_nat idx - pos))
    else dst !! idx.
Proof.
  intros Hf. unfold for_loop. rewrite lookup_for_range_store.
  repeat case_decide; try reflexivity; try (exfalso; lia).
  rewrite Hf by lia. reflexivity.
Qed.

(** ... and a loop that sums their magnitudes computes the cost. *)
Lemma sum_loop_row (f : Z -> number) (k : Spec.FilterKind) :
  (forall i, 0 <= i < bw -> f i = Num (Spec.residual k R P i)) ->
  for_loop 0 bw (fun i sum => add sum (abs (f i))) (Num 0) = Num (Spec.cost k R P).
Proof.
  intros Hf. unfold for_loop.
  rewrite (for_range_sum f (Spec.residual k R P)) by (intros; apply Hf; lia).
  unfold Spec.cost. rewrite length_scanline. f_equal.
  replace (bw - 0) with bw by lia. lia.
Qed.

Lemma filterSumSub_cost :
  filterSumSub (data img) (r * bw) bw 4 = Num (Spec.cost Spec.Sub R P).
Proof. apply (sum_loop_row _ Spec.Sub), value_Sub. Qed.

Lemma filterSumAvg_cost :
  filterSumAvg (data img) (r * bw) bw 4 = Num (Spec.cost Spec.Average R P).
Proof. apply (sum_loop_row _ Spec.Average), value_Average. Qed.

Lemma filterSumPaeth_cost :
  filterSumPaeth (data img) (r * bw) bw 4 = Num (Spec.cost Spec.Paeth R P).
Proof. apply (sum_loop_row _ Spec.Paeth), value_Paeth. Qed.

(** [filterSumUp] runs its index over buffer positions, not columns. *)
Lemma filterSumUp_cost :
  filterSumUp (data img) (r * bw) bw = Num (Spec.cost Spec.Up R P).
Proof.
  unfold filterSumUp, for_loop. cbv zeta.
  rewrite (for_range_sum _ (fun i => Spec.residual Spec.Up R P (i - r * bw))).
  - unfold Spec.cost. rewrite length_scanline. f_equal.
    replace (r * bw + bw - r * bw) with bw by lia.
    replace (r * bw) with (0 + r * bw) at 1 by lia.
    rewrite sum_range_shift. simpl.
    apply sum_range_ext. intros i _. do 2 f_equal. lia.
  - intros i Hi. rewrite <- value_Up by lia.
    replace (r * bw + (i - r * bw)) with i by lia.
    replace (i - bw) with (i - r * bw + r * bw - bw) at 1 by lia.
    replace (r * bw + (i - r * bw) - bw) with (i - r * bw + r * bw - bw) by lia.
    reflexivity.
Qed.

Lemma filterSub_lookup (dst : Uint8Array) (pos : Z) (idx : nat) :
  filterSub (data img) (r * bw) bw dst pos 4 !! idx =
    if decide (pos <= Z.of_nat idx < pos + bw /\ (idx < length dst)%nat)
    then Some (Spec.filteredByte Spec.Sub R P (Z.of_nat idx - pos))
    else dst !! idx.
Proof. apply (store_loop_row _ Spec.Sub), value_Sub. Qed.

Lemma filterUp_lookup (dst : Uint8Array) (pos : Z) (idx : nat) :
  filterUp (data img) (r * bw) bw dst pos !! idx =
    if decide (pos <= Z.of_nat idx < pos + bw /\ (idx < length dst)%nat)
    then Some (Spec.filteredByte Spec.Up R P (Z.of_nat idx - pos))
    else dst !! idx.
Proof. apply (store_loop_row _ Spec.Up), value_Up. Qed.

Lemma filterAvg_lookup (dst : Uint8Array) (pos : Z) (idx : nat) :
  filterAvg (data img) (r * bw) bw dst pos 4 !! idx =
    if decide (pos <= Z.of_nat idx < pos + bw /\ (idx < length dst)%nat)
    then Some (Spec.filteredByte Spec.Average R P (Z.of_nat idx - pos))
    else dst !! idx.
Proof. apply (store_loop_row _ Spec.Average), value_Average. Qed.

Lemma filterPaeth_lookup (dst : Uint8Array) (pos : Z) (idx : nat) :
  filterPaeth (data img) (r * bw) bw dst pos 4 !! idx =
    if decide (pos <= Z.of_nat idx < pos + bw /\ (idx < length dst)%nat)
    then Some (Spec.filteredByte Spec.Paeth R P (Z.of_nat idx - pos))
    else dst !! idx.
Proof. apply (store_loop_row _ Spec.Paeth), value_Paeth. Qed.

End Scanline.

(** ** The inverse filters and the selection, on the specification side *)

Section Inverse.

Lemma byteAt_take (row : list byte) (n : nat) (x : Z) :
  x < Z.of_nat n -> Spec.byteAt (take n row) x = Spec.byteAt row x.
Proof.
  intros Hx. unfold Spec.byteAt. case_decide; [|reflexivity].
  rewrite lookup_take_lt by lia. reflexivity.
Qed.

(** The predictor at column [n] reads the row only to the left of [n]. *)
Lemma predictor_take (k : Spec.FilterKind) (R P : list byte) (n : nat) :
  (n <= length R)%nat ->
  Spec.predictor k (take n R) P (len (take n R)) = Spec.predictor k R P (Z.of_nat n).
Proof.
  intros Hn. unfold len. rewrite length_take_le by exact Hn.
  unfold Spec.predictor, Spec.bpp.
  destruct k; rewrite ?byteAt_take by lia; reflexivity.
Qed.

Lemma unfilterScanline_from (k : Spec.FilterKind) (R P : list byte) (m n : nat) :
  (n + m = length R)%nat ->
  Spec.unfilterScanline k P
    (Spec.filteredByte k R P <$> seqZ (Z.of_nat n) (Z.of_nat m)) (take n R) = R.
Proof.
  revert n. induction m as [|m IH]; intros n Hn.
  - simpl. apply take_ge. lia.
  - rewrite seqZ_cons by lia. rewrite fmap_cons. simpl.
    destruct (lookup_lt_is_Some_2 R n ltac:(lia)) as [b Hb].
    replace (Spec.unfilterByte k P (take n R) (Spec.filteredByte k R P (Z.of_nat n)))
      with b.
    + rewrite <- (take_S_r R n b Hb).
      replace (Z.succ (Z.of_nat n)) with (Z.of_nat (S n)) by lia.
      replace (Z.pred (Z.of_nat (S m))) with (Z.of_nat m) by lia.
      apply IH. lia.
    + unfold Spec.unfilterByte, Spec.filteredByte, Spec.residual.
      rewrite predictor_take by lia.
      rewrite (byteAt_lookup R n b Hb). symmetry. apply byte_add_sub.
  Qed.

(** Filtering a scanline and then decoding it with the inverse of the
    same filter gives the scanline back. *)
Lemma unfilter_filterScanline (k : Spec.FilterKind) (R P : list byte) :
  Spec.unfilterScanline k P (Spec.filterScanline k R P) [] = R.
Proof.
  unfold Spec.filterScanline, len.
  apply (unfilterScanline_from k R P (length R) 0). lia.
Qed.

Lemma length_filterScanline (k : Spec.FilterKind) (R P : list byte) :
  length (Spec.filterScanline k R P) = length R.
Proof.
  unfold Spec.filterScanline, len. rewrite length_fmap, length_seqZ. lia.
Qed.

Lemma lookup_filterScanline (k : Spec.FilterKind) (R P : list byte) (x : nat) :
  (x < length R)%nat ->
  Spec.filterScanline k R P !! x = Some (Spec.filteredByte k R P (Z.of_nat x)).
Proof.
  intros Hx. unfold Spec.filterScanline, len.
  rewrite list_lookup_fmap, lookup_seqZ_lt by lia. simpl. do 2 f_equal.
Qed.

Lemma cheapest_candidate (R P : list byte) : Spec.cheapest R P <> Spec.NoFilter.
Proof. unfold Spec.cheapest. simpl. repeat case_decide; discriminate. Qed.

(** The selected filter is the first of Sub, Up, Average, Paeth among
    those of least cost. *)
Lemma cheapest_minimal (R P : list byte) (k : Spec.FilterKind) :
  k <> Spec.NoFilter ->
  Spec.cost (Spec.cheapest R P) R P <= Spec.cost k R P /\
  (Spec.code k < Spec.code (Spec.cheapest R P) ->
   Spec.cost (Spec.cheapest R P) R P < Spec.cost k R P).
Proof.
  intros Hk. unfold Spec.cheapest. simpl.
  destruct k; [congruence | ..]; repeat case_decide; simpl; lia.
Qed.

End Inverse.

(** ** The row loop of [filter] *)

Section Rows.

Import Filter.

(** Whatever the buffer holds, the selection ends without an exception
    on one of the entries 1 to 4, or on the filter type it started
    with (when every sum is [NaN]). *)
Lemma selectFilter_total (d : Uint8Array) (p w b ft : Z) :
  exists m t, selectFilter d p w b ft = Ok (m, t) /\ (t = ft \/ 1 <= t <= 4).
Proof.
  unfold selectFilter, for_loopM. simpl.
  generalize (filterSumSub d p w b) (filterSumUp d p w)
             (filterSumAvg d p w b) (filterSumPaeth d p w b).
  intros s1 s2 s3 s4.
  destruct (lt s1 Infinity); simpl;
    (destruct (lt s2 _); simpl; (destruct (lt s3 _); simpl; (destruct (lt s4 _); simpl)));
    eexists _, _; (split; [reflexivity | lia]).
Qed.

Lemma FILTER_TYPES_at_total (t : Z) :
  1 <= t <= 4 ->
  exists e, FILTER_TYPES_at t = Ok e /\
    forall d p w dst pos b, exists dst',
      entry_filter e d p w dst pos b = Ok dst' /\ length dst' = length dst.
Proof.
  intros Ht.
  assert (t = 1 \/ t = 2 \/ t = 3 \/ t = 4) as [-> | [-> | [-> | ->]]] by lia;
    (eexists; split; [reflexivity|]); intros; simpl; eexists; (split; [reflexivity|]);
    apply length_for_range_store.
Qed.

(** One row never throws and keeps the buffer's length. *)
Lemma filterRow_total (d : Uint8Array) (w b : Z) (st : RowState) :
  1 <= filterType st <= 4 ->
  exists st', filterRow d w b st = Ok st' /\
    1 <= filterType st' <= 4 /\
    length (filtered st') = length (filtered st).
Proof.
  intros Hft. unfold filterRow.
  destruct (selectFilter_total d (fromPos st) w b (filterType st)) as (m & t & -> & Ht).
  simpl.
  destruct (FILTER_TYPES_at_total t ltac:(lia)) as (e & -> & He). simpl.
  destruct (He d (fromPos st) w
              (store (filtered st) (filterTypePos st) (Num (entry_type e)))
              (filterTypePos st + 1) b) as (dst' & -> & Hlen).
  simpl. eexists. split; [reflexivity|]. simpl.
  split; [lia|]. rewrite Hlen. apply length_store.
Qed.

(** In this model of the allocation, [filter] throws exactly when the
    length of the filtered buffer is negative. *)
Lemma filter_total (img : ImageData) :
  0 <= (width img * 4 + 1) * height img ->
  exists out, filter img = Ok out /\
              len out = (width img * 4 + 1) * height img.
Proof.
  intros Hsize. unfold filter, new_Uint8Array. rewrite decide_True by exact Hsize. simpl.
  unfold for_loopM.
  destruct (for_rangeM_invariant
              (fun _ st => 1 <= filterType st <= 4 /\
                           len (filtered st) = (width img * 4 + 1) * height img)
              (fun _ st => filterRow (data img) (width img * 4) 4 st)
              (Z.to_nat (height img - 0)) 0
              {| filtered := replicate (Z.to_nat ((width img * 4 + 1) * height img)) x00;
                 filterTypePos := 0; fromPos := 0; filterType := 1 |})
    as (st & -> & _ & Hlen).
  - simpl. split; [lia|]. unfold len. rewrite length_replicate. lia.
  - intros i st _ [Hft Hlen].
    destruct (filterRow_total (data img) (width img * 4) 4 st Hft) as (st' & -> & Hft' & Hl).
    exists st'. split; [reflexivity|]. split; [exact Hft'|].
    unfold len in *. rewrite Hl. exact Hlen.
  - simpl. eexists. split; [reflexivity | exact Hlen].
Qed.

Lemma filter_RangeError (img : ImageData) :
  (width img * 4 + 1) * height img < 0 -> filter img = Throw RangeError.
Proof.
  intros Hsize. unfold filter, new_Uint8Array. rewrite decide_False by lia. reflexivity.
Qed.

End Rows.

(** ** The rows of an image whose buffer covers its dimensions *)

Section CoveredRows.

Import Filter.

Variable img : ImageData.
Let bw := Spec.byteWidth img.

Hypothesis Hwidth : 0 <= width img.
Hypothesis Hcovers : bw * height img <= len (data img).

Section Row.

Variable r : Z.
Hypothesis Hrow : 0 <= r < height img.

Let R := Spec.scanline img r.
Let P := Spec.prior img r.

(** The entry of each of the four filters in the dispatch table: its
    type, its sum and its transform, against the specification. *)
Lemma table_entry (k : Spec.FilterKind) :
  k <> Spec.NoFilter ->
  exists e, FILTER_TYPES_at (Spec.code k) = Ok e /\
    entry_type e = Spec.code k /\
    entry_sum e (data img) (r * bw) bw 4 = Num (Spec.cost k R P) /\
    forall (dst : Uint8Array) (pos : Z), exists dst',
      entry_filter e (data img) (r * bw) bw dst pos 4 = Ok dst' /\
      length dst' = length dst /\
      forall idx : nat,
        dst' !! idx =
          if decide (pos <= Z.of_nat idx < pos + bw /\ (idx < length dst)%nat)
          then Some (Spec.filteredByte k R P (Z.of_nat idx - pos))
          else dst !! idx.
Proof.
  intros Hk.
  destruct k; [congruence | ..];
    (eexists; split; [reflexivity|]; split; [reflexivity|]; simpl; split;
     [| intros dst pos; eexists; split; [reflexivity|]; split;
        [apply length_for_range_store|]; intros idx]).
  - apply filterSumSub_cost; assumption.
  - apply filterSub_lookup; assumption.
  - apply filterSumUp_cost; assumption.
  - apply filterUp_lookup; assumption.
  - apply filterSumAvg_cost; assumption.
  - apply filterAvg_lookup; assumption.
  - apply filterSumPaeth_cost; assumption.
  - apply filterPaeth_lookup; assumption.
Qed.

(** On such a row every sum is finite, so the selection does not
    depend on the filter type left by the previous row. *)
Lemma selectFilter_row (ft : Z) :
  selectFilter (data img) (r * bw) bw 4 ft =
    Ok (Num (Spec.cost (Spec.cheapest R P) R P), Spec.code (Spec.cheapest R P)).
Proof.
  unfold selectFilter, for_loopM. simpl.
  rewrite filterSumSub_cost, filterSumUp_cost, filterSumAvg_cost, filterSumPaeth_cost
    by assumption.
  fold R P. unfold Spec.cheapest. simpl.
  repeat match goal with
         | |- context [?a <? ?b] =>
             destruct (Z.ltb_spec a b); destruct (decide (a < b));
             try (exfalso; lia); simpl
         end.
  all: reflexivity.
Qed.

Lemma length_encodedRow : length (Spec.encodedRow img r) = Z.to_nat (bw + 1).
Proof.
  unfold Spec.encodedRow. simpl. rewrite length_filterScanline.
  fold R. subst R. rewrite length_scanline by assumption. fold bw.
  unfold Spec.byteWidth, Spec.bpp in bw. lia.
Qed.

Lemma filterRow_row (st : RowState) :
  fromPos st = r * bw ->
  filterTypePos st = r * (bw + 1) ->
  (r + 1) * (bw + 1) <= len (filtered st) ->
  exists st', filterRow (data img) bw 4 st = Ok st' /\
    fromPos st' = (r + 1) * bw /\
    filterTypePos st' = (r + 1) * (bw + 1) /\
    length (filtered st') = length (filtered st) /\
    forall idx : nat,
      filtered st' !! idx =
        if decide (r * (bw + 1) <= Z.of_nat idx < (r + 1) * (bw + 1))
        then Spec.encodedRow img r !! Z.to_nat (Z.of_nat idx - r * (bw + 1))
        else filtered st !! idx.
Proof.
  intros Hfrom Hpos Hroom. unfold filterRow.
  rewrite Hfrom, Hpos, selectFilter_row. simpl.
  destruct (table_entry (Spec.cheapest R P) (cheapest_candidate R P))
    as (e & -> & Htype & _ & Hfilter).
  simpl. rewrite Htype.
  destruct (Hfilter (store (filtered st) (r * (bw + 1)) (Num (Spec.code (Spec.cheapest R P))))
                    (r * (bw + 1) + 1)) as (dst' & -> & Hlen & Hlookup).
  simpl. eexists. split; [reflexivity|]. simpl.
  assert (0 <= bw) by (subst bw; unfold Spec.byteWidth, Spec.bpp; lia).
  rewrite length_store in Hlen.
  split; [lia|]. split; [lia|]. split; [exact Hlen|].
  intros idx. rewrite Hlookup, length_store, lookup_store. unfold len in Hroom.
  unfold Spec.encodedRow. fold R P.
  destruct (decide (Z.of_nat idx = r * (bw + 1))) as [Heq|Hne].
  - rewrite decide_False by lia. rewrite decide_True by nia.
    rewrite decide_True by nia.
    replace (Z.to_nat (Z.of_nat idx - r * (bw + 1))) with 0%nat by lia.
    reflexivity.
  - destruct (decide (r * (bw + 1) <= Z.of_nat idx < (r + 1) * (bw + 1))) as [Hin|Hout].
    + rewrite decide_True by nia.
      replace (Z.to_nat (Z.of_nat idx - r * (bw + 1)))
        with (S (Z.to_nat (Z.of_nat idx - (r * (bw + 1) + 1)))) by lia.
      simpl. rewrite lookup_filterScanline.
      * do 2 f_equal. lia.
      * subst R. rewrite length_scanline by assumption. fold bw. lia.
    + rewrite decide_False by lia. rewrite decide_False by lia. reflexivity.
Qed.

End Row.

(** The filtered buffer of such an image, row by row. *)
Lemma filter_rows :
  0 <= height img ->
  exists out, filter img = Ok out /\
    len out = (bw + 1) * height img /\
    forall r, 0 <= r < height img ->
      Spec.filteredRow bw out r = Spec.encodedRow img r.
Proof.
  intros Hheight.
  assert (Hbw : bw = width img * 4) by reflexivity.
  assert (0 <= bw) by lia.
  unfold filter, new_Uint8Array. rewrite <- Hbw.
  rewrite decide_True by nia. simpl. unfold for_loopM.
  destruct (for_rangeM_invariant
              (fun i st =>
                 fromPos st = i * bw /\ filterTypePos st = i * (bw + 1) /\
                 len (filtered st) = (bw + 1) * height img /\
                 forall r (idx : nat), 0 <= r < i ->
                   r * (bw + 1) <= Z.of_nat idx < (r + 1) * (bw + 1) ->
                   filtered st !! idx =
                     Spec.encodedRow img r !! Z.to_nat (Z.of_nat idx - r * (bw + 1)))
              (fun _ st => filterRow (data img) bw 4 st)
              (Z.to_nat (height img - 0)) 0
              {| filtered := replicate (Z.to_nat ((bw + 1) * height img)) x00;
                 filterTypePos := 0; fromPos := 0; filterType := 1 |})
    as (st & -> & _ & _ & Hlen & Hrows).
  - simpl. split; [lia|]. split; [lia|]. split.
    + unfold len. rewrite length_replicate. nia.
    + intros r idx Hr. lia.
  - intros i st Hi (Hfrom & Hpos & Hlen & Hrows).
    destruct (filterRow_row i ltac:(lia) st Hfrom Hpos ltac:(nia))
      as (st' & -> & Hfrom' & Hpos' & Hlen' & Hlookup).
    exists st'. split; [reflexivity|].
    split; [exact Hfrom'|]. split; [exact Hpos'|]. split.
    + unfold len in *. rewrite Hlen'. exact Hlen.
    + intros r idx Hr Hidx. rewrite Hlookup.
      destruct (decide (r = i)) as [->|Hne].
      * rewrite decide_True by lia. reflexivity.
      * rewrite decide_False by nia. apply Hrows; lia.
  - simpl. eexists. split; [reflexivity|]. split; [exact Hlen|].
    intros r Hr. apply list_eq. intros j.
    unfold Spec.filteredRow. rewrite lookup_take, lookup_drop.
    case_decide as Hj.
    + replace (Z.to_nat (r * (bw + 1)) + j)%nat
        with (Z.to_nat (r * (bw + 1) + Z.of_nat j)) by nia.
      rewrite (Hrows r) by nia. f_equal. nia.
    + symmetry. apply lookup_ge_None. rewrite length_encodedRow by assumption. lia.
Qed.

End CoveredRows.

(** ** The chunk writer *)

Section Chunks.

Lemma length_uint32_be (v : Z) : length (Spec.uint32_be v) = 4%nat.
Proof. reflexivity. Qed.

(** [uint32_be] is the big-endian representation of [v mod 2^32]. *)
Lemma uint32_of_be_uint32_be (v : Z) :
  Spec.uint32_of_be (Spec.uint32_be v) = v mod 2 ^ 32.
Proof.
  unfold Spec.uint32_of_be, Spec.uint32_be. simpl. rewrite !byte_to_of_Z.
  pose proof (Z.mod_pos_bound v (2 ^ 32) eq_refl) as Hv.
  generalize dependent (v mod 2 ^ 32). intros u Hu.
  change (2 ^ 24) with 16777216. change (2 ^ 16) with 65536. change (2 ^ 8) with 256.
  change (2 ^ 32) with 4294967296 in Hu.
  Z.to_euclidean_division_equations. lia.
Qed.

(** [_writeAsBigEndian] overwrites four cells with the big-endian bytes
    of the value taken modulo 2^32. *)
Lemma writeAsBigEndian_app (pre post : list byte) (b0 b1 b2 b3 : byte) (v : Z) :
  PngWriter._writeAsBigEndian (pre ++ [b0; b1; b2; b3] ++ post) (Num v) (len pre)
  = pre ++ Spec.uint32_be v ++ post.
Proof.
  unfold PngWriter._writeAsBigEndian, store, len.
  rewrite !decide_True by lia.
  replace (Z.to_nat (Z.of_nat (length pre))) with (length pre + 0)%nat by lia.
  replace (Z.to_nat (Z.of_nat (length pre) + 1)) with (length pre + 1)%nat by lia.
  replace (Z.to_nat (Z.of_nat (length pre) + 2)) with (length pre + 2)%nat by lia.
  replace (Z.to_nat (Z.of_nat (length pre) + 3)) with (length pre + 3)%nat by lia.
  rewrite !insert_app_r. simpl.
  rewrite !Z.shiftr_div_pow2 by lia. rewrite Z.div_1_r. reflexivity.
Qed.

Lemma writeAsBigEndian_at (buf pre post : list byte) (v i : Z) :
  buf = pre ++ replicate 4 x00 ++ post -> i = len pre ->
  PngWriter._writeAsBigEndian buf (Num v) i = pre ++ Spec.uint32_be v ++ post.
Proof. intros -> ->. apply writeAsBigEndian_app. Qed.

Lemma set_app (pre mid post src : list byte) :
  length mid = length src ->
  set (pre ++ mid ++ post) src (len pre) = Ok (pre ++ src ++ post).
Proof.
  intros Hlen. unfold set, len. rewrite !length_app.
  rewrite decide_True by lia. do 2 f_equal.
  - rewrite Nat2Z.id. apply take_app_length.
  - f_equal.
    replace (Z.to_nat (Z.of_nat (length pre) + Z.of_nat (length src)))
      with (length pre + length mid)%nat by lia.
    rewrite <- drop_drop, drop_app_length. apply drop_app_length.
Qed.

Lemma subarray_all (a : list byte) : subarray a 0 (0 + len a) = a.
Proof.
  unfold subarray, rel_index, len. rewrite !decide_False by lia.
  replace (Z.to_nat (Z.min 0 (Z.of_nat (length a)))) with 0%nat by lia.
  rewrite drop_0. apply take_ge. lia.
Qed.

Lemma slice_middle (pre mid post : list byte) :
  length pre = 4%nat -> length post = 4%nat ->
  slice (pre ++ mid ++ post) 4 (len (pre ++ mid ++ post) - 4) = mid.
Proof.
  intros Hpre Hpost. unfold slice, subarray, rel_index, len.
  rewrite !length_app, Hpre, Hpost. rewrite !decide_False by lia.
  replace (Z.to_nat (Z.min 4 _)) with (length pre) by lia.
  rewrite drop_app_length. apply take_app_length'. lia.
Qed.

Variable crc32 : Z -> Uint8Array -> Z -> Z -> Z.

(** The chunk writer never throws and emits the wire format. *)
Lemma writeChunk_chunk (type : Z) (data : option Uint8Array) :
  Writer._writeChunk crc32 type data = Ok (Spec.chunk crc32 type (default [] data)).
Proof.
  unfold Writer._writeChunk, new_Uint8Array.
  set (payload := default [] data).
  assert (Hlen : match data with Some d => len d | None => 0 end = len payload)
    by (destruct data; reflexivity).
  rewrite Hlen.
  assert (Hnn : 0 <= len payload) by (unfold len; lia).
  rewrite decide_True by lia. simpl bind.
  replace (Z.to_nat (len payload + 12))
    with (4 + (4 + (length payload + 4)))%nat by (unfold len; lia).
  rewrite (writeAsBigEndian_at _ [] (replicate (4 + (length payload + 4)) x00) _ 0)
    by reflexivity.
  rewrite (writeAsBigEndian_at _ (Spec.uint32_be (len payload))
             (replicate (length payload + 4) x00) _ 4) by reflexivity.
  assert (Hcopy :
    match data with
    | Some d => PngWriter.copy d
                  (Spec.uint32_be (len payload) ++ Spec.uint32_be type
                   ++ replicate (length payload + 4) x00) 8 None None
    | None => Ok (Spec.uint32_be (len payload) ++ Spec.uint32_be type
                  ++ replicate (length payload + 4) x00)
    end = Ok (Spec.uint32_be (len payload) ++ (Spec.uint32_be type ++ payload)
              ++ replicate 4 x00)).
  { destruct data as [d|]; simpl.
    - unfold PngWriter.copy. simpl default. rewrite subarray_all.
      rewrite replicate_add.
      pose proof (set_app (Spec.uint32_be (len d) ++ Spec.uint32_be type)
                    (replicate (length d) x00) (replicate 4 x00) d
                    (length_replicate _ _)) as Hset.
      rewrite <- !app_assoc in Hset. exact Hset.
    - reflexivity. }
  rewrite Hcopy. cbn [bind]. f_equal.
  rewrite (slice_middle (Spec.uint32_be (len payload)) (Spec.uint32_be type ++ payload)
             (replicate 4 x00)) by reflexivity.
  rewrite (writeAsBigEndian_at _ (Spec.uint32_be (len payload) ++ Spec.uint32_be type ++ payload)
             [] _ _).
  - unfold Spec.chunk. rewrite <- !app_assoc, app_nil_r. do 5 f_equal.
    unfold len. rewrite length_app. simpl. lia.
  - rewrite <- !app_assoc. reflexivity.
  - unfold len. rewrite !length_app. simpl. rewrite ?length_app. simpl. lia.
Qed.

End Chunks.

(** ** The encoder *)

Section Encoder.

Variable crc32 : Z -> Uint8Array -> Z -> Z -> Z.
Variable deflate : Uint8Array -> object -> result Uint8Array.

Lemma len_nonneg (a : list byte) : 0 <= len a.
Proof. unfold len. lia. Qed.

Lemma len_app (a b : list byte) : len (a ++ b) = len a + len b.
Proof. unfold len. rewrite length_app. lia. Qed.

Lemma writeIHDRChunk_chunk (width height : Z) :
  Writer.writeIHDRChunk crc32 width height
  = Ok (Spec.chunk crc32 PngWriter.TYPE_IHDR (Spec.ihdrPayload width height)).
Proof.
  unfold Writer.writeIHDRChunk. simpl bind.
  rewrite (writeAsBigEndian_at _ [] (replicate 9 x00) _ 0) by reflexivity.
  rewrite (writeAsBigEndian_at _ (Spec.uint32_be width) (replicate 5 x00) _ 4)
    by reflexivity.
  rewrite writeChunk_chunk. reflexivity.
Qed.

(** The size computed by the first [reduce]. *)
Lemma bufferSize_concat (parts : list Uint8Array) (n : Z) :
  foldl (fun pr cu => len cu + pr) n parts = n + len (concat parts).
Proof.
  revert n. induction parts as [|cu parts IH]; intros n; simpl.
  - unfold len. simpl. lia.
  - rewrite IH, len_app. lia.
Qed.

(** The second [reduce] copies the parts one after the other; no [set]
    falls outside the buffer. *)
Lemma reduce_set_concat (parts : list Uint8Array) (done : list byte) :
  reduceM (fun '(pr, offset) cu =>
             try! pr := set pr cu offset in Ok (pr, offset + len cu))
          parts
          (done ++ replicate (length (concat parts)) x00, len done)
  = Ok (done ++ concat parts, len done + len (concat parts)).
Proof.
  revert done. induction parts as [|cu parts IH]; intros done; simpl.
  - rewrite !app_nil_r. f_equal. f_equal. unfold len. simpl. lia.
  - rewrite length_app, replicate_add.
    rewrite set_app by apply length_replicate. simpl bind.
    rewrite <- len_app. rewrite (app_assoc done cu).
    rewrite IH. rewrite <- !app_assoc, !len_app. do 2 f_equal. lia.
Qed.

(** [write], once the predictor and the compressor have returned. *)
Lemma write_png (img : Filter.ImageData) (options : option object)
    (filtered compressed : Uint8Array) :
  Filter.filter img = Ok filtered ->
  deflate filtered (Writer.forwarded options) = Ok compressed ->
  Writer.write crc32 deflate img options
  = Ok (Spec.png crc32 (Filter.width img) (Filter.height img) compressed).
Proof.
  intros Hfilter Hdeflate. unfold Writer.write.
  rewrite writeIHDRChunk_chunk. cbn [bind].
  rewrite Hfilter. cbn [bind]. rewrite Hdeflate. cbn [bind].
  unfold Writer.writeIDATChunk, Writer.writeIENDChunk.
  rewrite !writeChunk_chunk. cbn [bind default app].
  rewrite bufferSize_concat. unfold new_Uint8Array.
  match goal with
  | |- context [decide (0 <= 0 + len ?l)] =>
      pose proof (len_nonneg l);
      rewrite decide_True by lia;
      replace (Z.to_nat (0 + len l)) with (length l) by (unfold len; lia)
  end.
  cbn [bind].
  match goal with
  | |- context [reduceM ?f ?parts (?buf, 0)] =>
      change (reduceM f parts (buf, 0)) with (reduceM f parts ([] ++ buf, len []))
  end.
  rewrite reduce_set_concat. cbn [bind fst app].
  unfold Spec.png. cbn [concat]. rewrite app_nil_r. reflexivity.
Qed.

Lemma write_filter_throws (img : Filter.ImageData) (options : option object) (e : error) :
  Filter.filter img = Throw e ->
  Writer.write crc32 deflate img options = Throw e.
Proof.
  intros Hfilter. unfold Writer.write.
  rewrite writeIHDRChunk_chunk. cbn [bind]. rewrite Hfilter. reflexivity.
Qed.

Lemma write_deflate_throws (img : Filter.ImageData) (options : option object)
    (filtered : Uint8Array) (e : error) :
  Filter.filter img = Ok filtered ->
  deflate filtered (Writer.forwarded options) = Throw e ->
  Writer.write crc32 deflate img options = Throw e.
Proof.
  intros Hfilter Hdeflate. unfold Writer.write.
  rewrite writeIHDRChunk_chunk. cbn [bind]. rewrite Hfilter. cbn [bind].
  rewrite Hdeflate. reflexivity.
Qed.

End Encoder.

(** * The claims *)

(** ** The chunk framer *)

(** C1. For every type tag and every payload (a byte sequence, or [null]),
    [_writeChunk] returns a frame of [payload.length + 12] bytes laid out
    as: the payload length as a big-endian uint32, the type tag as a
    big-endian uint32, the payload, and the big-endian CRC-32 (seed 0)
    computed over the type bytes followed by the payload, the length field
    left out.  With a [null] or empty payload the frame has 12 bytes,
    length 0, and the CRC covers the 4 type bytes alone. *)
Theorem writeChunk_frame (crc32 : Z -> Uint8Array -> Z -> Z -> Z)
    (type : Z) (data : option Uint8Array) :
  let payload := default [] data in
  let crc := crc32 0 (Spec.uint32_be type ++ payload) (4 + len payload) 0 in
  let frame :=
    Spec.uint32_be (len payload) ++ Spec.uint32_be type ++ payload ++ Spec.uint32_be crc in
  Writer._writeChunk crc32 type data = Ok frame /\
  len frame = len payload + 12 /\
  take 4 frame = Spec.uint32_be (len payload) /\
  take 4 (drop 4 frame) = Spec.uint32_be type /\
  take (length payload) (drop 8 frame) = payload /\
  drop (8 + length payload) frame = Spec.uint32_be crc /\
  Spec.uint32_of_be (take 4 frame) = len payload mod 2 ^ 32 /\
  Spec.uint32_of_be (take 4 (drop 4 frame)) = type mod 2 ^ 32 /\
  Writer._writeChunk crc32 type None
  = Ok (Spec.uint32_be 0 ++ Spec.uint32_be type
        ++ Spec.uint32_be (crc32 0 (Spec.uint32_be type) 4 0)) /\
  Writer._writeChunk crc32 type (Some []) = Writer._writeChunk crc32 type None.
Proof.
  intros payload crc frame.
  assert (Htake : take 4 frame = Spec.uint32_be (len payload)) by reflexivity.
  assert (Htype : take 4 (drop 4 frame) = Spec.uint32_be type) by reflexivity.
  split; [apply writeChunk_chunk|].
  split.
  { subst frame. rewrite !len_app. unfold len. simpl. lia. }
  split; [exact Htake|]. split; [exact Htype|].
  split.
  { change (drop 8 frame) with (payload ++ Spec.uint32_be crc). apply take_app_length. }
  split.
  { change (drop (8 + length payload) frame)
      with (drop (length payload) (payload ++ Spec.uint32_be crc)).
    apply drop_app_length. }
  split; [rewrite Htake; apply uint32_of_be_uint32_be|].
  split; [rewrite Htype; apply uint32_of_be_uint32_be|].
  split.
  - rewrite writeChunk_chunk. unfold Spec.chunk. simpl default.
    rewrite app_nil_r. reflexivity.
  - rewrite !writeChunk_chunk. reflexivity.
Qed.

(** ** The Paeth predictor *)

(** C6. For all bytes [left], [above], [upperLeft], the Paeth predictor
    computes [p = a + b - c] exactly (an integer between -255 and 510),
    the distances [pa], [pb], [pc], and returns [a] if [pa <= pb] and
    [pa <= pc], else [b] if [pb <= pc], else [c]; whenever the three
    distances are equal (as when [a = b = c]) it returns the left value. *)
Theorem paethPredictor_spec (left above upperLeft : byte) :
  let a := byte_to_Z left in
  let b := byte_to_Z above in
  let c := byte_to_Z upperLeft in
  let p := a + b - c in
  let pa := Z.abs (p - a) in
  let pb := Z.abs (p - b) in
  let pc := Z.abs (p - c) in
  -255 <= p <= 510 /\
  Filter.paethPredictor (Num a) (Num b) (Num c)
  = Num (if decide (pa <= pb /\ pa <= pc) then a else if decide (pb <= pc) then b else c) /\
  (pa = pb -> pb = pc -> Filter.paethPredictor (Num a) (Num b) (Num c) = Num a) /\
  (a = b -> b = c -> Filter.paethPredictor (Num a) (Num b) (Num c) = Num a).
Proof.
  intros a b c p pa pb pc.
  pose proof (byte_to_Z_range left). pose proof (byte_to_Z_range above).
  pose proof (byte_to_Z_range upperLeft).
  assert (Hspec : Filter.paethPredictor (Num a) (Num b) (Num c)
                  = Num (if decide (pa <= pb /\ pa <= pc) then a
                         else if decide (pb <= pc) then b else c))
    by apply paethPredictor_Num.
  split; [subst p a b c; lia|]. split; [exact Hspec|]. split.
  - intros Hab Hbc. rewrite Hspec. rewrite decide_True by lia. reflexivity.
  - intros Hab Hbc. rewrite Hspec. rewrite decide_True by (subst pa pb pc p; lia).
    reflexivity.
Qed.

Lemma paethPredictor_spec_witness :
  Filter.paethPredictor (Num 7) (Num 7) (Num 7) = Num 7.
Proof.
  destruct (paethPredictor_spec x07 x07 x07) as (_ & _ & Htie & _).
  apply Htie; reflexivity.
Defined.

(** ** The predictor on valid images *)

Lemma valid_covers (img : Filter.ImageData) :
  Spec.valid img ->
  0 <= Filter.width img /\ 0 <= Filter.height img /\
  Spec.byteWidth img * Filter.height img <= len (Filter.data img).
Proof.
  unfold Spec.valid, Spec.byteWidth, Spec.bpp. intros (Hw & Hh & Hlen). lia.
Qed.

(** Each of the four transforms writes the filtered scanline into the
    destination, at the position it is given. *)
Lemma entry_filter_scanline (img : Filter.ImageData) (r : Z) (k : Spec.FilterKind) :
  Spec.valid img -> 0 <= r < Filter.height img -> k <> Spec.NoFilter ->
  exists e, Filter.FILTER_TYPES_at (Spec.code k) = Ok e /\
    forall (dst : Uint8Array) (pos : Z),
      0 <= pos -> pos + Spec.byteWidth img <= len dst ->
      exists dst',
        Filter.entry_filter e (Filter.data img) (r * Spec.byteWidth img)
          (Spec.byteWidth img) dst pos 4 = Ok dst' /\
        take (Z.to_nat (Spec.byteWidth img)) (drop (Z.to_nat pos) dst')
        = Spec.filterScanline k (Spec.scanline img r) (Spec.prior img r).
Proof.
  intros Hvalid Hr Hk.
  destruct (valid_covers img Hvalid) as (Hw & Hh & Hcov).
  destruct (table_entry img Hcov r Hr k Hk) as (e & He & _ & _ & Hfilter).
  exists e. split; [exact He|]. intros dst pos Hpos Hroom.
  destruct (Hfilter dst pos) as (dst' & Hdst' & Hlen & Hlookup).
  exists dst'. split; [exact Hdst'|].
  assert (Hbw : 0 <= Spec.byteWidth img) by (unfold Spec.byteWidth, Spec.bpp; lia).
  pose proof (length_scanline img Hcov r Hr) as HlenR.
  unfold len in Hroom.
  apply list_eq. intros j. rewrite lookup_take, lookup_drop.
  destruct (decide (j < Z.to_nat (Spec.byteWidth img))%nat) as [Hj|Hj].
  - rewrite Hlookup. rewrite decide_True by lia.
    rewrite lookup_filterScanline by lia. do 2 f_equal. lia.
  - symmetry. apply lookup_ge_None. rewrite length_filterScanline. lia.
Qed.

Lemma kindOf_code (k : Spec.FilterKind) : Spec.kindOf (byte_of_Z (Spec.code k)) = Some k.
Proof. destruct k; reflexivity. Qed.

Lemma scanline_drop (img : Filter.ImageData) (r : Z) :
  0 <= r -> 0 <= Spec.byteWidth img ->
  Spec.scanline img r ++ drop (Z.to_nat ((r + 1) * Spec.byteWidth img)) (Filter.data img)
  = drop (Z.to_nat (r * Spec.byteWidth img)) (Filter.data img).
Proof.
  intros Hr Hbw. unfold Spec.scanline.
  replace (Z.to_nat ((r + 1) * Spec.byteWidth img))
    with (Z.to_nat (r * Spec.byteWidth img) + Z.to_nat (Spec.byteWidth img))%nat by nia.
  rewrite <- drop_drop. apply take_drop.
Qed.

(** Decoding the rows [r], [r + 1], ... of the filtered buffer gives the
    pixel buffer from row [r] on. *)
Lemma unfilterRows_filter (img : Filter.ImageData) (out : Uint8Array) :
  Spec.valid img ->
  len out = (Spec.byteWidth img + 1) * Filter.height img ->
  (forall r, 0 <= r < Filter.height img ->
     Spec.filteredRow (Spec.byteWidth img) out r = Spec.encodedRow img r) ->
  forall (n : nat) (r : Z),
    0 <= r -> r + Z.of_nat n = Filter.height img ->
    Spec.unfilterRows (Z.to_nat (Spec.byteWidth img)) n (Spec.prior img r)
      (drop (Z.to_nat (r * (Spec.byteWidth img + 1))) out)
    = Some (drop (Z.to_nat (r * Spec.byteWidth img)) (Filter.data img)).
Proof.
  intros Hvalid Hlen Hrows.
  destruct (valid_covers img Hvalid) as (Hw & Hh & Hcov).
  assert (Hbw : 0 <= Spec.byteWidth img) by (unfold Spec.byteWidth, Spec.bpp; lia).
  induction n as [|n IH]; intros r Hr Hn.
  - simpl. f_equal. symmetry. apply drop_ge.
    destruct Hvalid as (_ & _ & Hdata). unfold len in Hdata.
    unfold Spec.byteWidth, Spec.bpp. nia.
  - assert (Hrow : 0 <= r < Filter.height img) by lia.
    assert (Hsplit : drop (Z.to_nat (r * (Spec.byteWidth img + 1))) out
                     = Spec.encodedRow img r
                       ++ drop (Z.to_nat ((r + 1) * (Spec.byteWidth img + 1))) out).
    { rewrite <- (Hrows r Hrow). unfold Spec.filteredRow.
      replace (Z.to_nat ((r + 1) * (Spec.byteWidth img + 1)))
        with (Z.to_nat (r * (Spec.byteWidth img + 1))
              + Z.to_nat (Spec.byteWidth img + 1))%nat by nia.
      rewrite <- drop_drop. symmetry. apply take_drop. }
    rewrite Hsplit. unfold Spec.encodedRow. cbn [app Spec.unfilterRows].
    rewrite kindOf_code.
    set (k := Spec.cheapest (Spec.scanline img r) (Spec.prior img r)).
    assert (HlenF : length (Spec.filterScanline k (Spec.scanline img r) (Spec.prior img r))
                    = Z.to_nat (Spec.byteWidth img))
      by (rewrite length_filterScanline; apply length_scanline; assumption).
    rewrite take_app_length' by (symmetry; exact HlenF).
    rewrite drop_app_length' by (symmetry; exact HlenF).
    rewrite unfilter_filterScanline.
    replace (Spec.scanline img r) with (Spec.prior img (r + 1)) at 1.
    2: { unfold Spec.prior. rewrite decide_False by lia. f_equal. lia. }
    rewrite (IH (r + 1)) by lia.
    f_equal. apply scanline_drop; assumption.
Qed.

(** The whole pixel buffer comes back from the filtered buffer alone. *)
Lemma unfilter_filter (img : Filter.ImageData) :
  Spec.valid img ->
  exists out,
    Filter.filter img = Ok out /\
    Spec.unfilter (Filter.width img) (Filter.height img) out = Some (Filter.data img).
Proof.
  intros Hvalid.
  destruct (valid_covers img Hvalid) as (Hw & Hh & Hcov).
  destruct (filter_rows img Hw Hcov Hh) as (out & Hout & Hlen & Hrows).
  exists out. split; [exact Hout|].
  pose proof (unfilterRows_filter img out Hvalid Hlen Hrows
                (Z.to_nat (Filter.height img)) 0 ltac:(lia) ltac:(lia)) as Hdecode.
  unfold Spec.prior in Hdecode. rewrite decide_True in Hdecode by reflexivity.
  exact Hdecode.
Qed.

(** C2. For every valid image and every row (row 0 included, whose prior
    row is all zeros), each of the transforms Sub, Up, Average and Paeth,
    applied to the scanline, is undone by its inverse formula
    [Raw(x) = F(x) + predictor(x) mod 256] run left to right over the
    decoded bytes (columns below [bpp], whose left and upper-left
    neighbours are zero, included): the original scanline comes back
    exactly.  The same holds for the transform the encoder chooses for
    the row, read from the filtered buffer, and for the whole filtered
    buffer decoded row after row. *)
Theorem filter_unfilter_roundtrip (img : Filter.ImageData) (r : Z) :
  Spec.valid img -> 0 <= r < Filter.height img ->
  let bw := Spec.byteWidth img in
  let R := Spec.scanline img r in
  let P := Spec.prior img r in
  (forall k, k <> Spec.NoFilter ->
     exists e, Filter.FILTER_TYPES_at (Spec.code k) = Ok e /\
       forall (dst : Uint8Array) (pos : Z),
         0 <= pos -> pos + bw <= len dst ->
         exists dst',
           Filter.entry_filter e (Filter.data img) (r * bw) bw dst pos 4 = Ok dst' /\
           Spec.unfilterScanline k P (take (Z.to_nat bw) (drop (Z.to_nat pos) dst')) [] = R) /\
  (exists out k,
     Filter.filter img = Ok out /\ k <> Spec.NoFilter /\
     Spec.filteredRow bw out r = byte_of_Z (Spec.code k) :: Spec.filterScanline k R P /\
     Spec.unfilterScanline k P (drop 1 (Spec.filteredRow bw out r)) [] = R) /\
  (exists out,
     Filter.filter img = Ok out /\
     Spec.unfilter (Filter.width img) (Filter.height img) out = Some (Filter.data img)).
Proof.
  intros Hvalid Hr bw R P. split; [|split; [|apply unfilter_filter; exact Hvalid]].
  - intros k Hk.
    destruct (entry_filter_scanline img r k Hvalid Hr Hk) as (e & He & Hfilter).
    exists e. split; [exact He|]. intros dst pos Hpos Hroom.
    destruct (Hfilter dst pos Hpos Hroom) as (dst' & Hdst' & Hrow).
    exists dst'. split; [exact Hdst'|].
    fold bw in Hrow. rewrite Hrow. apply unfilter_filterScanline.
  - destruct (valid_covers img Hvalid) as (Hw & Hh & Hcov).
    destruct (filter_rows img Hw Hcov Hh) as (out & Hout & _ & Hrows).
    exists out, (Spec.cheapest R P).
    split; [exact Hout|]. split; [apply cheapest_candidate|].
    fold bw in Hrows. rewrite (Hrows r Hr). unfold Spec.encodedRow. fold R P.
    split; [reflexivity|]. simpl. apply unfilter_filterScanline.
Qed.

(** C3. For every row of every valid image the selection evaluates the
    four entries Sub, Up, Average, Paeth (never None); each sum is the sum
    of the magnitudes of the signed residuals, taken before any wrap
    modulo 256; the filter of least sum is selected, the first in the
    order Sub, Up, Average, Paeth among equals; and the filter-type byte
    written for the row is its code, one of 1, 2, 3, 4. *)
Theorem filter_selection (img : Filter.ImageData) (r : Z) :
  Spec.valid img -> 0 <= r < Filter.height img ->
  let bw := Spec.byteWidth img in
  let R := Spec.scanline img r in
  let P := Spec.prior img r in
  exists out k,
    Filter.filter img = Ok out /\
    out !! Z.to_nat (r * (bw + 1)) = Some (byte_of_Z (Spec.code k)) /\
    1 <= Spec.code k <= 4 /\
    (forall ft, Filter.selectFilter (Filter.data img) (r * bw) bw 4 ft
                = Ok (Num (Spec.cost k R P), Spec.code k)) /\
    Filter.filterSumSub (Filter.data img) (r * bw) bw 4 = Num (Spec.cost Spec.Sub R P) /\
    Filter.filterSumUp (Filter.data img) (r * bw) bw = Num (Spec.cost Spec.Up R P) /\
    Filter.filterSumAvg (Filter.data img) (r * bw) bw 4 = Num (Spec.cost Spec.Average R P) /\
    Filter.filterSumPaeth (Filter.data img) (r * bw) bw 4 = Num (Spec.cost Spec.Paeth R P) /\
    (forall j, j <> Spec.NoFilter ->
       Spec.cost k R P <= Spec.cost j R P /\
       (Spec.code j < Spec.code k -> Spec.cost k R P < Spec.cost j R P)).
Proof.
  intros Hvalid Hr bw R P.
  destruct (valid_covers img Hvalid) as (Hw & Hh & Hcov).
  destruct (filter_rows img Hw Hcov Hh) as (out & Hout & Hlen & Hrows).
  exists out, (Spec.cheapest R P).
  split; [exact Hout|]. split.
  { specialize (Hrows r Hr). fold bw in Hrows.
    apply (f_equal (fun l => l !! 0%nat)) in Hrows.
    unfold Spec.filteredRow, Spec.encodedRow in Hrows.
    assert (0 <= bw) by (subst bw; unfold Spec.byteWidth, Spec.bpp; lia).
    rewrite lookup_take_lt, lookup_drop in Hrows by lia.
    rewrite Nat.add_0_r in Hrows. exact Hrows. }
  split.
  { pose proof (cheapest_candidate R P). destruct (Spec.cheapest R P); simpl; lia || congruence. }
  split; [intros ft; apply selectFilter_row; assumption|].
  split; [apply filterSumSub_cost; assumption|].
  split; [apply filterSumUp_cost; assumption|].
  split; [apply filterSumAvg_cost; assumption|].
  split; [apply filterSumPaeth_cost; assumption|].
  intros j Hj. apply cheapest_minimal. exact Hj.
Qed.

Lemma filter_unfilter_roundtrip_witness :
  exists out k,
    Filter.filter Samples.red_2x1 = Ok out /\ k <> Spec.NoFilter /\
    Spec.unfilterScanline k (Spec.prior Samples.red_2x1 0)
      (drop 1 (Spec.filteredRow 8 out 0)) []
    = Spec.scanline Samples.red_2x1 0.
Proof.
  assert (Hvalid : Spec.valid Samples.red_2x1) by (repeat split; reflexivity).
  assert (Hrow : 0 <= 0 < Filter.height Samples.red_2x1) by (simpl; lia).
  destruct (filter_unfilter_roundtrip Samples.red_2x1 0 Hvalid Hrow)
    as (_ & (out & k & Hout & Hk & _ & Hback) & _).
  exists out, k. split; [exact Hout|]. split; [exact Hk | exact Hback].
Defined.

Lemma filter_selection_witness :
  exists out k,
    Filter.filter Samples.red_2x1 = Ok out /\
    out !! 0%nat = Some (byte_of_Z (Spec.code k)) /\
    1 <= Spec.code k <= 4.
Proof.
  assert (Hvalid : Spec.valid Samples.red_2x1) by (repeat split; reflexivity).
  assert (Hrow : 0 <= 0 < Filter.height Samples.red_2x1) by (simpl; lia).
  destruct (filter_selection Samples.red_2x1 0 Hvalid Hrow)
    as (out & k & Hout & Hbyte & Hcode & _).
  exists out, k. split; [exact Hout|]. split; [exact Hbyte | exact Hcode].
Defined.

(** C8. For the 2x1 image of two identical red pixels the selection
    chooses Sub for the single row (Sub and Paeth both cost 510, Up 1020,
    Average 766; Sub comes first), and the filter-type byte at the start
    of the row in the filtered buffer is 1. *)
Theorem red_pixels_select_Sub :
  let img := Samples.red_2x1 in
  Filter.filterSumSub (Filter.data img) 0 8 4 = Num 510 /\
  Filter.filterSumUp (Filter.data img) 0 8 = Num 1020 /\
  Filter.filterSumAvg (Filter.data img) 0 8 4 = Num 766 /\
  Filter.filterSumPaeth (Filter.data img) 0 8 4 = Num 510 /\
  Filter.selectFilter (Filter.data img) 0 8 4 1 = Ok (Num 510, 1) /\
  Filter.filter img = Ok [x01; xff; x00; x00; xff; x00; x00; x00; x00] /\
  Spec.cheapest (Spec.scanline img 0) (Spec.prior img 0) = Spec.Sub.
Proof. vm_compute. repeat split; reflexivity. Qed.

(** ** The row loop on arbitrary buffers *)

Lemma for_loop_store_frame (f : Z -> number) (pos w : Z) (dst : Uint8Array) (idx : nat) :
  ~ (pos <= Z.of_nat idx < pos + w) ->
  for_loop 0 w (fun i a => store a (pos + i) (f i)) dst !! idx = dst !! idx.
Proof.
  intros Hout. unfold for_loop. rewrite lookup_for_range_store.
  rewrite decide_False by lia. reflexivity.
Qed.

(** The entries 1 to 4 of the table, on any buffer: the transform does
    not throw, keeps the length of the destination and writes nowhere
    outside the [byteWidth] cells from [filteredPos] on. *)
Lemma FILTER_TYPES_at_frame (t : Z) :
  1 <= t <= 4 ->
  exists e, Filter.FILTER_TYPES_at t = Ok e /\ Filter.entry_type e = t /\
    forall d p w dst pos b, exists dst',
      Filter.entry_filter e d p w dst pos b = Ok dst' /\
      length dst' = length dst /\
      forall idx : nat, ~ (pos <= Z.of_nat idx < pos + w) -> dst' !! idx = dst !! idx.
Proof.
  intros Ht.
  assert (t = 1 \/ t = 2 \/ t = 3 \/ t = 4) as [-> | [-> | [-> | ->]]] by lia;
    (eexists; split; [reflexivity|]; split; [reflexivity|]);
    intros d p w dst pos b; simpl; eexists;
    (split; [reflexivity|]; split; [apply length_for_range_store|]);
    intros idx Hidx; apply (for_loop_store_frame _ pos); exact Hidx.
Qed.

(** One row, whatever the pixel buffer holds: the type byte written is
    the filter type the row ends with, and nothing before it changes. *)
Lemma filterRow_frame (d : Uint8Array) (w b : Z) (st : Filter.RowState) :
  1 <= Filter.filterType st <= 4 ->
  0 <= Filter.filterTypePos st < len (Filter.filtered st) ->
  exists st', Filter.filterRow d w b st = Ok st' /\
    1 <= Filter.filterType st' <= 4 /\
    Filter.filterTypePos st' = Filter.filterTypePos st + (w + 1) /\
    Filter.fromPos st' = Filter.fromPos st + w /\
    length (Filter.filtered st') = length (Filter.filtered st) /\
    Filter.filtered st' !! Z.to_nat (Filter.filterTypePos st)
    = Some (byte_of_Z (Filter.filterType st')) /\
    forall idx : nat, Z.of_nat idx < Filter.filterTypePos st ->
      Filter.filtered st' !! idx = Filter.filtered st !! idx.
Proof.
  intros Hft Hpos. unfold Filter.filterRow.
  destruct (selectFilter_total d (Filter.fromPos st) w b (Filter.filterType st))
    as (m & t & -> & Ht).
  simpl.
  destruct (FILTER_TYPES_at_frame t ltac:(lia)) as (e & -> & Htype & He). simpl.
  destruct (He d (Filter.fromPos st) w
              (store (Filter.filtered st) (Filter.filterTypePos st) (Num (Filter.entry_type e)))
              (Filter.filterTypePos st + 1) b) as (dst' & -> & Hlen & Hframe).
  simpl. eexists. split; [reflexivity|]. simpl.
  rewrite length_store in Hlen. unfold len in Hpos.
  split; [lia|]. split; [reflexivity|]. split; [reflexivity|]. split; [exact Hlen|]. split.
  - rewrite Hframe by lia. rewrite lookup_store, decide_True by lia.
    rewrite Htype. reflexivity.
  - intros idx Hidx. rewrite Hframe by lia. rewrite lookup_store, decide_False by lia.
    reflexivity.
Qed.

(** The lemmas on the rows of a covered image, for one row that lies
    within the pixel buffer, whatever follows it. *)
Lemma selectFilter_row_within (img : Filter.ImageData) (r ft : Z) :
  0 <= r -> (r + 1) * Spec.byteWidth img <= len (Filter.data img) ->
  Filter.selectFilter (Filter.data img) (r * Spec.byteWidth img) (Spec.byteWidth img) 4 ft
  = Ok (Num (Spec.cost (Spec.cheapest (Spec.scanline img r) (Spec.prior img r))
               (Spec.scanline img r) (Spec.prior img r)),
        Spec.code (Spec.cheapest (Spec.scanline img r) (Spec.prior img r))).
Proof.
  intros Hr Hcov.
  exact (selectFilter_row
           {| Filter.width := Filter.width img; Filter.height := r + 1;
              Filter.data := Filter.data img |}
           ltac:(simpl; unfold Spec.byteWidth in *; simpl; lia) r ltac:(simpl; lia) ft).
Qed.

Lemma filterRow_row_within (img : Filter.ImageData) (r : Z) (st : Filter.RowState) :
  0 <= Filter.width img ->
  0 <= r -> (r + 1) * Spec.byteWidth img <= len (Filter.data img) ->
  Filter.fromPos st = r * Spec.byteWidth img ->
  Filter.filterTypePos st = r * (Spec.byteWidth img + 1) ->
  (r + 1) * (Spec.byteWidth img + 1) <= len (Filter.filtered st) ->
  exists st',
    Filter.filterRow (Filter.data img) (Spec.byteWidth img) 4 st = Ok st' /\
    forall idx : nat,
      r * (Spec.byteWidth img + 1) <= Z.of_nat idx < (r + 1) * (Spec.byteWidth img + 1) ->
      Filter.filtered st' !! idx
      = Spec.encodedRow img r !! Z.to_nat (Z.of_nat idx - r * (Spec.byteWidth img + 1)).
Proof.
  intros Hw Hr Hcov Hfrom Hpos Hroom.
  destruct (filterRow_row
              {| Filter.width := Filter.width img; Filter.height := r + 1;
                 Filter.data := Filter.data img |}
              Hw ltac:(simpl; unfold Spec.byteWidth in *; simpl; lia) r ltac:(simpl; lia)
              st Hfrom Hpos Hroom) as (st' & Hst' & _ & _ & _ & Hlookup).
  exists st'. split; [exact Hst'|].
  intros idx Hidx. rewrite Hlookup.
  change (Spec.byteWidth {| Filter.width := Filter.width img; Filter.height := r + 1;
                            Filter.data := Filter.data img |})
    with (Spec.byteWidth img).
  rewrite decide_True by exact Hidx. reflexivity.
Qed.

Lemma length_encodedRow_within (img : Filter.ImageData) (r : Z) :
  0 <= Filter.width img ->
  0 <= r -> (r + 1) * Spec.byteWidth img <= len (Filter.data img) ->
  length (Spec.encodedRow img r) = Z.to_nat (Spec.byteWidth img + 1).
Proof.
  intros Hw Hr Hcov.
  exact (length_encodedRow
           {| Filter.width := Filter.width img; Filter.height := r + 1;
              Filter.data := Filter.data img |}
           Hw ltac:(simpl; unfold Spec.byteWidth in *; simpl; lia) r ltac:(simpl; lia)).
Qed.

(** The row loop over a buffer already allocated: it does not throw,
    every row starts with a byte from 1 to 4, and every row that lies
    within the pixel buffer is the encoded row of the specification. *)
Lemma filter_loop (img : Filter.ImageData) (buf : Uint8Array) :
  0 <= Filter.width img -> 0 <= Filter.height img ->
  len buf = (Spec.byteWidth img + 1) * Filter.height img ->
  exists st,
    for_loopM 0 (Filter.height img)
      (fun _ st => Filter.filterRow (Filter.data img) (Spec.byteWidth img) 4 st)
      {| Filter.filtered := buf; Filter.filterTypePos := 0;
         Filter.fromPos := 0; Filter.filterType := 1 |} = Ok st /\
    len (Filter.filtered st) = (Spec.byteWidth img + 1) * Filter.height img /\
    (forall r, 0 <= r < Filter.height img ->
       exists t, 1 <= t <= 4 /\
         Filter.filtered st !! Z.to_nat (r * (Spec.byteWidth img + 1)) = Some (byte_of_Z t)) /\
    (forall r, 0 <= r < Filter.height img ->
       (r + 1) * Spec.byteWidth img <= len (Filter.data img) ->
       Spec.filteredRow (Spec.byteWidth img) (Filter.filtered st) r = Spec.encodedRow img r).
Proof.
  intros Hw Hh Hbuf.
  set (bw := Spec.byteWidth img) in *.
  assert (Hbw : 0 <= bw) by (subst bw; unfold Spec.byteWidth, Spec.bpp; lia).
  unfold for_loopM.
  destruct (for_rangeM_invariant
              (fun i st =>
                 Filter.fromPos st = i * bw /\
                 Filter.filterTypePos st = i * (bw + 1) /\
                 1 <= Filter.filterType st <= 4 /\
                 len (Filter.filtered st) = (bw + 1) * Filter.height img /\
                 (forall r, 0 <= r < i ->
                    exists t, 1 <= t <= 4 /\
                      Filter.filtered st !! Z.to_nat (r * (bw + 1)) = Some (byte_of_Z t)) /\
                 (forall r (idx : nat), 0 <= r < i ->
                    (r + 1) * bw <= len (Filter.data img) ->
                    r * (bw + 1) <= Z.of_nat idx < (r + 1) * (bw + 1) ->
                    Filter.filtered st !! idx
                    = Spec.encodedRow img r !! Z.to_nat (Z.of_nat idx - r * (bw + 1))))
              (fun _ st => Filter.filterRow (Filter.data img) bw 4 st)
              (Z.to_nat (Filter.height img - 0)) 0
              {| Filter.filtered := buf; Filter.filterTypePos := 0;
                 Filter.fromPos := 0; Filter.filterType := 1 |})
    as (st & Hst & _ & _ & _ & Hlen & Htypes & Hrows).
  - simpl. split; [lia|]. split; [lia|]. split; [lia|]. split; [exact Hbuf|].
    split; intros; lia.
  - intros i st Hi (Hfrom & Hpos & Hft & Hlen & Htypes & Hrows).
    destruct (filterRow_frame (Filter.data img) bw 4 st Hft ltac:(nia))
      as (st' & Hst' & Hft' & Hpos' & Hfrom' & Hlen' & Htype & Hframe).
    exists st'. split; [exact Hst'|].
    split; [lia|]. split; [lia|]. split; [exact Hft'|]. split.
    { unfold len in *. rewrite Hlen'. exact Hlen. }
    split.
    + intros r Hr. destruct (decide (r = i)) as [->|Hne].
      * exists (Filter.filterType st'). split; [exact Hft'|].
        rewrite <- Hpos. exact Htype.
      * destruct (Htypes r ltac:(lia)) as (t & Ht & Hbyte).
        exists t. split; [exact Ht|]. rewrite Hframe by nia. exact Hbyte.
    + intros r idx Hr Hcov Hidx. destruct (decide (r = i)) as [->|Hne].
      * destruct (filterRow_row_within img i st Hw ltac:(lia) Hcov Hfrom Hpos ltac:(nia))
          as (st'' & Hst'' & Hlookup).
        fold bw in Hst'', Hlookup.
        assert (st'' = st') as -> by congruence.
        apply Hlookup. exact Hidx.
      * rewrite Hframe by nia. apply Hrows; [lia | exact Hcov | exact Hidx].
  - exists st. split; [exact Hst|]. simpl in Hlen, Htypes, Hrows.
    split; [exact Hlen|]. split.
    + intros r Hr. apply Htypes. lia.
    + intros r Hr Hcov. apply list_eq. intros j.
      unfold Spec.filteredRow. rewrite lookup_take, lookup_drop.
      case_decide as Hj.
      * replace (Z.to_nat (r * (bw + 1)) + j)%nat
          with (Z.to_nat (r * (bw + 1) + Z.of_nat j)) by nia.
        rewrite (Hrows r) by nia. f_equal. nia.
      * symmetry. apply lookup_ge_None.
        rewrite (length_encodedRow_within img r Hw ltac:(lia) Hcov). fold bw. lia.
Qed.

(** What a filtered buffer that [filter] returned looks like. *)
Lemma filter_Ok_rows (img : Filter.ImageData) (out : Uint8Array) :
  Filter.filter img = Ok out ->
  0 <= (Spec.byteWidth img + 1) * Filter.height img /\
  len out = (Spec.byteWidth img + 1) * Filter.height img /\
  (forall r, 0 <= r < Filter.height img ->
     exists t, 1 <= t <= 4 /\
       out !! Z.to_nat (r * (Spec.byteWidth img + 1)) = Some (byte_of_Z t)) /\
  (forall r, 0 <= r < Filter.height img ->
     (r + 1) * Spec.byteWidth img <= len (Filter.data img) ->
     Spec.filteredRow (Spec.byteWidth img) out r = Spec.encodedRow img r).
Proof.
  intros Hout.
  assert (Hbw : Spec.byteWidth img = Filter.width img * 4) by reflexivity.
  assert (Hsize : 0 <= (Spec.byteWidth img + 1) * Filter.height img).
  { destruct (decide (0 <= (Spec.byteWidth img + 1) * Filter.height img)) as [H|H]; [exact H|].
    rewrite filter_RangeError in Hout by (rewrite <- Hbw; lia). discriminate Hout. }
  split; [exact Hsize|].
  destruct (decide (0 < Filter.height img)) as [Hpos|Hnone].
  - assert (Hw : 0 <= Filter.width img) by nia.
    unfold Filter.filter, new_Uint8Array in Hout. rewrite <- Hbw in Hout.
    rewrite decide_True in Hout by exact Hsize. simpl in Hout.
    destruct (filter_loop img
                (replicate (Z.to_nat ((Spec.byteWidth img + 1) * Filter.height img)) x00)
                Hw ltac:(lia) ltac:(unfold len; rewrite length_replicate; lia))
      as (st & Hst & Hlen & Htypes & Hrows).
    rewrite Hst in Hout. simpl in Hout. injection Hout as <-.
    split; [exact Hlen|]. split; [exact Htypes | exact Hrows].
  - destruct (filter_total img ltac:(rewrite <- Hbw; exact Hsize)) as (out' & Hout' & Hlen).
    assert (out' = out) as -> by congruence.
    rewrite <- Hbw in Hlen.
    split; [exact Hlen|]. split; intros r Hr; lia.
Qed.

Lemma prior_agree (img1 img2 : Filter.ImageData) (r : Z) :
  Filter.width img1 = Filter.width img2 ->
  (0 < r -> Spec.scanline img1 (r - 1) = Spec.scanline img2 (r - 1)) ->
  0 <= r ->
  Spec.prior img1 r = Spec.prior img2 r.
Proof.
  intros Hw Hprev Hr. unfold Spec.prior, Spec.byteWidth. rewrite Hw.
  case_decide; [reflexivity|]. apply Hprev. lia.
Qed.

(** C10, as stated for any two images, fails: the two truncated samples
    have the same width and height and agree on row 2 (beyond the end of
    both buffers) and on row 1, yet row 2 of the filtered buffer starts
    with 2 in one run and with 1 in the other, the filter type left by
    row 1, which depends on row 0. *)
Lemma stale_type_breaks_locality :
  ~ (forall (img1 img2 : Filter.ImageData) (r : Z) (out1 out2 : Uint8Array),
       Filter.width img1 = Filter.width img2 ->
       Filter.height img1 = Filter.height img2 ->
       0 <= r < Filter.height img1 ->
       Spec.scanline img1 r = Spec.scanline img2 r ->
       (0 < r -> Spec.scanline img1 (r - 1) = Spec.scanline img2 (r - 1)) ->
       Filter.filter img1 = Ok out1 -> Filter.filter img2 = Ok out2 ->
       Spec.filteredRow (Spec.byteWidth img1) out1 r
       = Spec.filteredRow (Spec.byteWidth img1) out2 r).
Proof.
  intros Hclaim.
  specialize (Hclaim Samples.truncated_a Samples.truncated_b 2
                [x01; x01; x02; x03; x04; x02; x04; x04; x04; x04; x02; x00; x00; x00; x00]
                [x01; xc8; x01; x01; x01; x01; x05; x06; x07; x08; x01; x00; x00; x00; x00]
                eq_refl eq_refl ltac:(simpl; lia) eq_refl (fun _ => eq_refl)
                eq_refl eq_refl).
  vm_compute in Hclaim. discriminate Hclaim.
Qed.

(** C10, amended.  For two images of the same width and height whose
    bytes agree on row [r] and, when [r > 0], on row [r - 1], and whose
    pixel buffers both reach the end of row [r], the selection chooses the
    same filter for row [r], whatever filter type the earlier rows left
    behind, and the bytes of row [r] in the two filtered buffers
    (filter-type byte and transformed bytes) are the same. *)
Theorem row_locality (img1 img2 : Filter.ImageData) (r : Z) (out1 out2 : Uint8Array) :
  Filter.width img1 = Filter.width img2 ->
  Filter.height img1 = Filter.height img2 ->
  0 <= r < Filter.height img1 ->
  let bw := Spec.byteWidth img1 in
  (r + 1) * bw <= len (Filter.data img1) ->
  (r + 1) * bw <= len (Filter.data img2) ->
  Spec.scanline img1 r = Spec.scanline img2 r ->
  (0 < r -> Spec.scanline img1 (r - 1) = Spec.scanline img2 (r - 1)) ->
  Filter.filter img1 = Ok out1 -> Filter.filter img2 = Ok out2 ->
  Spec.filteredRow bw out1 r = Spec.filteredRow bw out2 r /\
  (forall ft1 ft2,
     Filter.selectFilter (Filter.data img1) (r * bw) bw 4 ft1
     = Filter.selectFilter (Filter.data img2) (r * bw) bw 4 ft2).
Proof.
  intros Hw Hh Hr bw Hcov1 Hcov2 Hrow Hprev Hout1 Hout2.
  assert (Hbw : Spec.byteWidth img2 = bw) by (subst bw; unfold Spec.byteWidth; congruence).
  assert (Hprior : Spec.prior img1 r = Spec.prior img2 r)
    by (apply prior_agree; [exact Hw | exact Hprev | lia]).
  destruct (filter_Ok_rows img1 out1 Hout1) as (_ & _ & _ & Hrows1).
  destruct (filter_Ok_rows img2 out2 Hout2) as (_ & _ & _ & Hrows2).
  split.
  - fold bw in Hrows1. rewrite Hbw in Hrows2.
    rewrite (Hrows1 r Hr Hcov1), (Hrows2 r ltac:(lia) Hcov2).
    unfold Spec.encodedRow. rewrite Hrow, Hprior. reflexivity.
  - intros ft1 ft2.
    pose proof (selectFilter_row_within img1 r ft1 ltac:(lia) Hcov1) as Hsel1.
    pose proof (selectFilter_row_within img2 r ft2 ltac:(lia)
                  ltac:(rewrite Hbw; exact Hcov2)) as Hsel2.
    rewrite Hbw in Hsel2. fold bw in Hsel1.
    rewrite Hsel1, Hsel2, Hrow, Hprior. reflexivity.
Qed.

Lemma row_locality_witness :
  exists out1 out2,
    Filter.filter Samples.column_a = Ok out1 /\
    Filter.filter Samples.column_b = Ok out2 /\
    Spec.filteredRow 4 out1 2 = Spec.filteredRow 4 out2 2.
Proof.
  eexists. eexists.
  split; [vm_compute; reflexivity|]. split; [vm_compute; reflexivity|].
  refine (proj1 (row_locality Samples.column_a Samples.column_b 2 _ _
                   eq_refl eq_refl _ _ _ eq_refl (fun _ => eq_refl) _ _)).
  - simpl. lia.
  - unfold Spec.byteWidth, Spec.bpp, len. simpl. lia.
  - unfold Spec.byteWidth, Spec.bpp, len. simpl. lia.
  - vm_compute. reflexivity.
  - vm_compute. reflexivity.
Defined.

(** Outside the valid images the selection is not local to two rows: a
    row that lies beyond the end of the pixel buffer has only [NaN] sums
    and inherits the filter type of the row before it, which depends on
    the rows above.  The two truncated samples agree from row 1 on and
    get different bytes for row 2. *)
Example stale_filter_type_beyond_buffer :
  Filter.filter Samples.truncated_a
  = Ok [x01; x01; x02; x03; x04; x02; x04; x04; x04; x04; x02; x00; x00; x00; x00] /\
  Filter.filter Samples.truncated_b
  = Ok [x01; xc8; x01; x01; x01; x01; x05; x06; x07; x08; x01; x00; x00; x00; x00].
Proof. vm_compute. split; reflexivity. Qed.

(** ** The encoder and its collaborators *)

(** [write] calls the compressor once, on the filtered buffer and the
    merged options, and frames what it returns; an exception of the
    compressor leaves [write] unchanged. *)
Lemma write_calls_deflate (crc32 : Z -> Uint8Array -> Z -> Z -> Z)
    (deflate : Uint8Array -> object -> result Uint8Array)
    (img : Filter.ImageData) (options : option object) (filtered : Uint8Array) :
  Filter.filter img = Ok filtered ->
  Writer.write crc32 deflate img options
  = try! compressed := deflate filtered (Writer.forwarded options) in
    Ok (Spec.png crc32 (Filter.width img) (Filter.height img) compressed).
Proof.
  intros Hfilter.
  destruct (deflate filtered (Writer.forwarded options)) as [compressed|e] eqn:Hdeflate.
  - apply (write_png crc32 deflate img options filtered compressed Hfilter Hdeflate).
  - apply (write_deflate_throws crc32 deflate img options filtered e Hfilter Hdeflate).
Qed.

Lemma lookup_forwarded (options : object) (k : string) :
  Writer.forwarded (Some options) !! k
  = match options !! k with
    | Some v => Some v
    | None => Writer.defaults !! k
    end.
Proof.
  unfold Writer.forwarded, Object_assign. simpl default.
  rewrite lookup_union.
  destruct (options !! k), (Writer.defaults !! k); reflexivity.
Qed.

(** C5. For every valid image, and whatever the compressor returns for the
    filtered buffer, the output of [write] is exactly the 8-byte signature
    89 50 4E 47 0D 0A 1A 0A, the IHDR chunk whose 13-byte payload is the
    width and the height (4 bytes big-endian each), bit depth 8, colour
    type 6, compression, filter and interlace method 0, the IDAT chunk
    framing the compressed filtered data, and an empty IEND chunk; its
    length is the sum of the lengths of these parts. *)
Theorem write_layout (crc32 : Z -> Uint8Array -> Z -> Z -> Z)
    (deflate : Uint8Array -> object -> result Uint8Array)
    (img : Filter.ImageData) (options : option object) :
  Spec.valid img ->
  exists filtered,
    Filter.filter img = Ok filtered /\
    forall compressed,
      deflate filtered (Writer.forwarded options) = Ok compressed ->
      let ihdr :=
        Spec.uint32_be (Filter.width img) ++ Spec.uint32_be (Filter.height img)
        ++ [x08; x06; x00; x00; x00] in
      let out :=
        [x89; x50; x4e; x47; x0d; x0a; x1a; x0a]
        ++ Spec.chunk crc32 0x49484452 ihdr
        ++ Spec.chunk crc32 0x49444154 compressed
        ++ Spec.chunk crc32 0x49454e44 [] in
      Writer.write crc32 deflate img options = Ok out /\
      len ihdr = 13 /\
      len out = 8 + (13 + 12) + (len compressed + 12) + 12.
Proof.
  intros Hvalid.
  destruct (valid_covers img Hvalid) as (Hw & Hh & _).
  destruct (filter_total img ltac:(nia)) as (filtered & Hfilter & _).
  exists filtered. split; [exact Hfilter|].
  intros compressed Hdeflate ihdr out.
  split; [apply (write_png crc32 deflate img options filtered compressed Hfilter Hdeflate)|].
  split; [reflexivity|].
  subst out. unfold Spec.chunk. rewrite !len_app. unfold len. simpl. lia.
Qed.

Lemma write_layout_witness :
  exists compressed,
    Writer.write Samples.crc_zero Samples.deflate_identity Samples.red_1x1 None
    = Ok (Spec.png Samples.crc_zero 1 1 compressed).
Proof.
  assert (Hvalid : Spec.valid Samples.red_1x1) by (repeat split; reflexivity).
  destruct (write_layout Samples.crc_zero Samples.deflate_identity Samples.red_1x1 None Hvalid)
    as (filtered & _ & Hwrite).
  exists filtered. apply (Hwrite filtered eq_refl).
Defined.

(** C4, as the specification states it, fails: an image of width 0 and
    height 0 over a buffer of three bytes violates all three conditions,
    and the encoder still returns a byte sequence. *)
Lemma invalid_dimensions_not_rejected :
  ~ (forall (crc32 : Z -> Uint8Array -> Z -> Z -> Z)
            (deflate : Uint8Array -> object -> result Uint8Array)
            (img : Filter.ImageData) (options : option object),
       Filter.width img <= 0 \/ Filter.height img <= 0 \/
       len (Filter.data img) <> Filter.width img * Filter.height img * 4 ->
       exists e, Writer.write crc32 deflate img options = Throw e).
Proof.
  intros Hclaim.
  destruct (Hclaim Samples.crc_zero Samples.deflate_identity Samples.empty_image None)
    as (e & He).
  - left. simpl. lia.
  - vm_compute in He. discriminate He.
Qed.

(** C4, amended.  [write] checks neither the dimensions nor the length of
    the pixel buffer.  When [(width * 4 + 1) * height] is negative it
    throws a [RangeError], from the allocation of the filtered buffer.
    Whenever the predictor returns its filtered buffer (width or height
    zero, both negative, a pixel buffer of any length), that buffer has
    [(width * 4 + 1) * height] bytes and [write] returns the framed
    output of the compressor, or rethrows what the compressor throws.
    Whatever the predictor throws, [write] throws. *)
Theorem write_dimension_failures (crc32 : Z -> Uint8Array -> Z -> Z -> Z)
    (deflate : Uint8Array -> object -> result Uint8Array)
    (img : Filter.ImageData) (options : option object) :
  let size := (Filter.width img * 4 + 1) * Filter.height img in
  (size < 0 -> Writer.write crc32 deflate img options = Throw RangeError) /\
  (forall filtered,
     Filter.filter img = Ok filtered ->
     len filtered = size /\
     Writer.write crc32 deflate img options
     = try! compressed := deflate filtered (Writer.forwarded options) in
       Ok (Spec.png crc32 (Filter.width img) (Filter.height img) compressed)) /\
  (forall e,
     Filter.filter img = Throw e -> Writer.write crc32 deflate img options = Throw e).
Proof.
  intros size. split; [|split].
  - intros Hneg. apply write_filter_throws, filter_RangeError. exact Hneg.
  - intros filtered Hfilter. split.
    + destruct (filter_Ok_rows img filtered Hfilter) as (_ & Hlen & _). exact Hlen.
    + apply write_calls_deflate. exact Hfilter.
  - intros e Hthrow. apply write_filter_throws. exact Hthrow.
Qed.

Lemma write_dimension_failures_witness :
  Writer.write Samples.crc_zero Samples.deflate_identity
    {| Filter.width := 1; Filter.height := -1; Filter.data := [] |} None
  = Throw RangeError /\
  Writer.write Samples.crc_zero Samples.deflate_identity Samples.short_buffer None
  = Ok (Spec.png Samples.crc_zero 3 1
          [x01; xff; x00; x00; xff; x00; x00; x00; x00; x00; x00; x00; x00]).
Proof.
  split.
  - destruct (write_dimension_failures Samples.crc_zero Samples.deflate_identity
                {| Filter.width := 1; Filter.height := -1; Filter.data := [] |} None)
      as (Hneg & _).
    apply Hneg. simpl. lia.
  - destruct (write_dimension_failures Samples.crc_zero Samples.deflate_identity
                Samples.short_buffer None) as (_ & Hok & _).
    destruct (Hok [x01; xff; x00; x00; xff; x00; x00; x00; x00; x00; x00; x00; x00]
                ltac:(vm_compute; reflexivity)) as (_ & Hwrite).
    exact Hwrite.
Defined.

(** C7. For every options object of the caller, the options forwarded to
    the compressor are the defaults (windowBits 15, chunkSize 32768,
    strategy 3, and level 0) overridden property by property by the
    caller's, the caller's value winning; [{level: 5}] alone leaves
    windowBits at 15, chunkSize at 32768 and strategy at 3.  These are the
    options of the one call [write] makes to the compressor. *)
Theorem options_merge (options : object) :
  (forall k, Writer.forwarded (Some options) !! k
             = match options !! k with
               | Some v => Some v
               | None => Writer.defaults !! k
               end) /\
  Writer.defaults !! "windowBits"%string = Some (VNum 15) /\
  Writer.defaults !! "chunkSize"%string = Some (VNum 32768) /\
  Writer.defaults !! "strategy"%string = Some (VNum 3) /\
  (let forwarded := Writer.forwarded (Some Samples.level_five) in
   forwarded !! "level"%string = Some (VNum 5) /\
   forwarded !! "windowBits"%string = Some (VNum 15) /\
   forwarded !! "chunkSize"%string = Some (VNum 32768) /\
   forwarded !! "strategy"%string = Some (VNum 3)) /\
  (forall crc32 deflate img filtered,
     Filter.filter img = Ok filtered ->
     Writer.write crc32 deflate img (Some options)
     = try! compressed := deflate filtered (Writer.forwarded (Some options)) in
       Ok (Spec.png crc32 (Filter.width img) (Filter.height img) compressed)).
Proof.
  split; [intros k; apply lookup_forwarded|].
  split; [reflexivity|]. split; [reflexivity|]. split; [reflexivity|].
  split; [repeat split; reflexivity|].
  intros crc32 deflate img filtered Hfilter. apply write_calls_deflate. exact Hfilter.
Qed.

Lemma options_merge_witness :
  Writer.write Samples.crc_zero Samples.deflate_identity Samples.red_2x1
    (Some Samples.level_five)
  = Ok (Spec.png Samples.crc_zero 2 1 [x01; xff; x00; x00; xff; x00; x00; x00; x00]).
Proof.
  destruct (options_merge Samples.level_five) as (_ & _ & _ & _ & _ & Hcall).
  apply (Hcall Samples.crc_zero Samples.deflate_identity Samples.red_2x1
               [x01; xff; x00; x00; xff; x00; x00; x00; x00]).
  reflexivity.
Defined.

(** C9, as stated, fails for an options object that omits [level] but
    supplies another property: [{strategy: 1}] reaches the compressor
    with strategy 1, not 3. *)
Lemma omitted_level_other_overrides :
  ~ (forall options : object,
       options !! "level"%string = None ->
       Writer.forwarded (Some options) !! "level"%string = Some (VNum 0) /\
       Writer.forwarded (Some options) !! "windowBits"%string = Some (VNum 15) /\
       Writer.forwarded (Some options) !! "chunkSize"%string = Some (VNum 32768) /\
       Writer.forwarded (Some options) !! "strategy"%string = Some (VNum 3)).
Proof.
  intros Hclaim.
  destruct (Hclaim Samples.strategy_one ltac:(vm_compute; reflexivity))
    as (_ & _ & _ & Hstrategy).
  vm_compute in Hstrategy. discriminate Hstrategy.
Qed.

(** C9, amended.  With no options object (or an empty one) the compressor
    is called with level 0, windowBits 15, chunkSize 32768 and strategy 3.
    With an options object that omits [level] it is called with level 0,
    and with the default of every other property the object omits as
    well; a property the object supplies keeps the caller's value. *)
Theorem default_options (options : object) :
  Writer.forwarded None = Writer.defaults /\
  Writer.forwarded (Some ∅) = Writer.defaults /\
  Writer.defaults !! "level"%string = Some (VNum 0) /\
  Writer.defaults !! "windowBits"%string = Some (VNum 15) /\
  Writer.defaults !! "chunkSize"%string = Some (VNum 32768) /\
  Writer.defaults !! "strategy"%string = Some (VNum 3) /\
  (forall k, k ∉ ["level"; "windowBits"; "chunkSize"; "strategy"]%string ->
             Writer.defaults !! k = None) /\
  (options !! "level"%string = None ->
   Writer.forwarded (Some options) !! "level"%string = Some (VNum 0)) /\
  (forall k, options !! k = None ->
             Writer.forwarded (Some options) !! k = Writer.defaults !! k) /\
  (forall k v, options !! k = Some v ->
               Writer.forwarded (Some options) !! k = Some v) /\
  (forall crc32 deflate img filtered,
     Filter.filter img = Ok filtered ->
     Writer.write crc32 deflate img None
     = try! compressed := deflate filtered Writer.defaults in
       Ok (Spec.png crc32 (Filter.width img) (Filter.height img) compressed)).
Proof.
  assert (Hnone : Writer.forwarded None = Writer.defaults).
  { unfold Writer.forwarded, Object_assign. simpl default. apply (left_id ∅ (∪)). }
  split; [exact Hnone|]. split; [exact Hnone|].
  split; [reflexivity|]. split; [reflexivity|]. split; [reflexivity|]. split; [reflexivity|].
  split.
  { intros k Hk. unfold Writer.defaults.
    rewrite !lookup_insert_ne; [apply lookup_empty | ..];
      intros <-; apply Hk; repeat constructor. }
  split; [intros Hlevel; rewrite lookup_forwarded, Hlevel; reflexivity|].
  split; [intros k Hk; rewrite lookup_forwarded, Hk; reflexivity|].
  split; [intros k v Hk; rewrite lookup_forwarded, Hk; reflexivity|].
  intros crc32 deflate img filtered Hfilter. rewrite <- Hnone.
  apply write_calls_deflate. exact Hfilter.
Qed.

Lemma default_options_witness :
  Writer.forwarded (Some Samples.strategy_one) !! "level"%string = Some (VNum 0) /\
  Writer.forwarded (Some Samples.strategy_one) !! "windowBits"%string = Some (VNum 15).
Proof.
  destruct (default_options Samples.strategy_one)
    as (_ & _ & _ & Hwindow & _ & _ & _ & Hlevel & Hother & _).
  split.
  - apply Hlevel. vm_compute. reflexivity.
  - rewrite (Hother "windowBits"%string ltac:(vm_compute; reflexivity)). exact Hwindow.
Defined.

(** * Further properties of the code *)

(** ** The predictor on arbitrary buffers *)

(** X1. Whatever the pixel buffer holds (too short, too long, empty),
    a buffer that [filter] returns has [(width * 4 + 1) * height] bytes
    and the first byte of every row is 1, 2, 3 or 4: filter type 0 is
    never written. *)
Theorem filter_type_bytes (img : Filter.ImageData) (out : Uint8Array) :
  Filter.filter img = Ok out ->
  let bw := Filter.width img * 4 in
  len out = (bw + 1) * Filter.height img /\
  forall r, 0 <= r < Filter.height img ->
    exists t, 1 <= t <= 4 /\ out !! Z.to_nat (r * (bw + 1)) = Some (byte_of_Z t).
Proof.
  intros Hout bw.
  destruct (filter_Ok_rows img out Hout) as (_ & Hlen & Htypes & _).
  split; [exact Hlen | exact Htypes].
Qed.

Lemma filter_type_bytes_witness :
  exists t,
    1 <= t <= 4 /\
    [x01; xff; x00; x00; xff; x00; x00; x00; x00; x00; x00; x00; x00] !! 0%nat
    = Some (byte_of_Z t).
Proof.
  destruct (filter_type_bytes Samples.short_buffer
              [x01; xff; x00; x00; xff; x00; x00; x00; x00; x00; x00; x00; x00]
              ltac:(vm_compute; reflexivity)) as (_ & Hrows).
  exact (Hrows 0 ltac:(simpl; lia)).
Defined.

Lemma add_NaN_r (s : number) : add s NaN = NaN.
Proof. destruct s; reflexivity. Qed.

Lemma for_range_NaN (v : Z -> number) (n : nat) (lo : Z) :
  for_range lo n (fun i sum => add sum (abs (v i))) NaN = NaN.
Proof. revert lo. induction n as [|n IH]; intros lo; simpl; [reflexivity | apply IH]. Qed.

(** One [NaN] among the values makes the whole sum [NaN]. *)
Lemma for_range_sum_NaN (v : Z -> number) (n : nat) (lo : Z) (s0 : number) (i : Z) :
  lo <= i < lo + Z.of_nat n -> v i = NaN ->
  for_range lo n (fun j sum => add sum (abs (v j))) s0 = NaN.
Proof.
  revert lo s0. induction n as [|n IH]; intros lo s0 Hi Hv; simpl; [lia|].
  destruct (decide (i = lo)) as [->|Hne].
  - rewrite Hv. simpl abs. rewrite add_NaN_r. apply for_range_NaN.
  - apply IH; [lia | exact Hv].
Qed.

Lemma get_beyond (a : Uint8Array) (i : Z) : len a <= i -> get a i = NaN.
Proof.
  intros Hi. unfold get. case_decide; [|reflexivity].
  rewrite (proj2 (lookup_ge_None a (Z.to_nat i))) by (unfold len in Hi; lia).
  reflexivity.
Qed.

(** X2. When some column of a row lies beyond the end of the pixel
    buffer, each of the four sums is [NaN], no comparison succeeds, and
    the selection returns the filter type it was entered with (that of
    the previous row, or 1 on the first row) with the minimum still at
    [Infinity]. *)
Theorem selectFilter_beyond_buffer (d : Uint8Array) (p w b ft i : Z) :
  0 <= i < w -> len d <= p + i ->
  Filter.filterSumSub d p w b = NaN /\
  Filter.filterSumUp d p w = NaN /\
  Filter.filterSumAvg d p w b = NaN /\
  Filter.filterSumPaeth d p w b = NaN /\
  Filter.selectFilter d p w b ft = Ok (Infinity, ft).
Proof.
  intros Hi Hbeyond.
  pose proof (get_beyond d (p + i) Hbeyond) as Hget.
  assert (Hsub : Filter.filterSumSub d p w b = NaN).
  { unfold Filter.filterSumSub, for_loop.
    apply (for_range_sum_NaN _ _ _ _ i); [lia|]. cbv zeta. rewrite Hget. reflexivity. }
  assert (Hup : Filter.filterSumUp d p w = NaN).
  { unfold Filter.filterSumUp, for_loop. cbv zeta.
    apply (for_range_sum_NaN _ _ _ _ (p + i)); [lia|]. rewrite Hget. reflexivity. }
  assert (Havg : Filter.filterSumAvg d p w b = NaN).
  { unfold Filter.filterSumAvg, for_loop.
    apply (for_range_sum_NaN _ _ _ _ i); [lia|]. cbv zeta. rewrite Hget. reflexivity. }
  assert (Hpaeth : Filter.filterSumPaeth d p w b = NaN).
  { unfold Filter.filterSumPaeth, for_loop.
    apply (for_range_sum_NaN _ _ _ _ i); [lia|]. cbv zeta. rewrite Hget. reflexivity. }
  repeat (split; [assumption|]).
  unfold Filter.selectFilter, for_loopM. simpl.
  rewrite Hsub, Hup, Havg, Hpaeth. reflexivity.
Qed.

Lemma selectFilter_beyond_buffer_witness :
  Filter.selectFilter (Filter.data Samples.truncated_a) 8 4 4 2 = Ok (Infinity, 2).
Proof.
  apply (selectFilter_beyond_buffer (Filter.data Samples.truncated_a) 8 4 4 2 0);
    [lia | unfold len; simpl; lia].
Defined.

(** ** Costs of a row *)

Lemma sum_range_bound (g : Z -> Z) (c : Z) (n : nat) (lo : Z) :
  (forall i, lo <= i < lo + Z.of_nat n -> 0 <= g i <= c) ->
  0 <= Spec.sum_range lo n g <= Z.of_nat n * c.
Proof.
  revert lo. induction n as [|n IH]; intros lo Hg; simpl; [lia|].
  pose proof (Hg lo ltac:(lia)). pose proof (IH (lo + 1) ltac:(intros; apply Hg; lia)). lia.
Qed.

Lemma sum_range_nonneg (g : Z -> Z) (n : nat) (lo : Z) :
  (forall i, lo <= i < lo + Z.of_nat n -> 0 <= g i) ->
  0 <= Spec.sum_range lo n g.
Proof.
  revert lo. induction n as [|n IH]; intros lo Hg; simpl; [lia|].
  pose proof (Hg lo ltac:(lia)). pose proof (IH (lo + 1) ltac:(intros; apply Hg; lia)). lia.
Qed.

Lemma sum_range_zero (g : Z -> Z) (n : nat) (lo : Z) :
  (forall i, lo <= i < lo + Z.of_nat n -> 0 <= g i) ->
  Spec.sum_range lo n g = 0 ->
  forall i, lo <= i < lo + Z.of_nat n -> g i = 0.
Proof.
  revert lo. induction n as [|n IH]; intros lo Hg Hsum i Hi; simpl in *; [lia|].
  pose proof (Hg lo ltac:(lia)).
  pose proof (sum_range_nonneg g n (lo + 1) ltac:(intros; apply Hg; lia)).
  destruct (decide (i = lo)) as [->|Hne]; [lia|].
  apply (IH (lo + 1)); [intros; apply Hg; lia | lia | lia].
Qed.

Lemma residual_NoFilter (R P : list byte) (x : Z) :
  Spec.residual Spec.NoFilter R P x = Spec.byteAt R x.
Proof. unfold Spec.residual. simpl. lia. Qed.

Lemma cost_bounds (img : Filter.ImageData) (k : Spec.FilterKind) (R P : list byte) :
  0 <= Spec.cost k R P <= Z.of_nat (length R) * 255.
Proof.
  unfold Spec.cost. apply sum_range_bound. intros i _.
  pose proof (residual_range img k R P i). lia.
Qed.

(** [filterSumNone] adds up the bytes of the scanline. *)
Lemma filterSumNone_cost (img : Filter.ImageData) (r : Z) :
  Spec.byteWidth img * Filter.height img <= len (Filter.data img) ->
  0 <= r < Filter.height img ->
  Filter.filterSumNone (Filter.data img) (r * Spec.byteWidth img) (Spec.byteWidth img)
  = Num (Spec.cost Spec.NoFilter (Spec.scanline img r) (Spec.prior img r)).
Proof.
  intros Hcov Hr. unfold Filter.filterSumNone, for_loop. cbv zeta.
  rewrite (for_range_sum _ (fun i => Spec.residual Spec.NoFilter (Spec.scanline img r)
                                       (Spec.prior img r) (i - r * Spec.byteWidth img))).
  - unfold Spec.cost. rewrite length_scanline by assumption. f_equal.
    replace (r * Spec.byteWidth img + Spec.byteWidth img - r * Spec.byteWidth img)
      with (Spec.byteWidth img) by lia.
    replace (r * Spec.byteWidth img) with (0 + r * Spec.byteWidth img) at 1 by lia.
    rewrite sum_range_shift. simpl.
    apply sum_range_ext. intros i _. do 2 f_equal. lia.
  - intros i Hi. rewrite residual_NoFilter.
    rewrite <- (get_scanline img Hcov r Hr) by lia. f_equal. lia.
Qed.

Lemma PaethPredictor_left (a : Z) : Spec.PaethPredictor a 0 0 = a.
Proof. unfold Spec.PaethPredictor. rewrite decide_True by lia. reflexivity. Qed.

(** X3. On the first row of a valid image the prior row is all zeros,
    so the Paeth sum equals the Sub sum and the Up sum equals the plain
    sum of the bytes; Paeth, which comes after Sub, is therefore never
    selected for row 0: the first byte of the filtered buffer is 1, 2
    or 3. *)
Theorem first_row_never_Paeth (img : Filter.ImageData) :
  Spec.valid img ->
  let bw := Spec.byteWidth img in
  Filter.filterSumPaeth (Filter.data img) 0 bw 4 = Filter.filterSumSub (Filter.data img) 0 bw 4 /\
  Filter.filterSumUp (Filter.data img) 0 bw = Filter.filterSumNone (Filter.data img) 0 bw /\
  exists out t,
    Filter.filter img = Ok out /\ out !! 0%nat = Some (byte_of_Z t) /\ 1 <= t <= 3.
Proof.
  intros Hvalid bw.
  destruct (valid_covers img Hvalid) as (Hw & Hh & Hcov).
  assert (Hr : 0 <= 0 < Filter.height img) by (destruct Hvalid; lia).
  set (R := Spec.scanline img 0). set (P := Spec.prior img 0).
  assert (Hzero : forall x, Spec.byteAt P x = 0) by (intros x; apply prior_first; reflexivity).
  assert (Hpaeth : Spec.cost Spec.Paeth R P = Spec.cost Spec.Sub R P).
  { unfold Spec.cost. apply sum_range_ext. intros i _.
    unfold Spec.residual, Spec.predictor. rewrite !Hzero, PaethPredictor_left. reflexivity. }
  assert (Hup : Spec.cost Spec.Up R P = Spec.cost Spec.NoFilter R P).
  { unfold Spec.cost. apply sum_range_ext. intros i _.
    unfold Spec.residual, Spec.predictor. rewrite Hzero. reflexivity. }
  pose proof (filterSumPaeth_cost img Hcov 0 Hr) as H4.
  pose proof (filterSumSub_cost img Hcov 0 Hr) as H1.
  pose proof (filterSumUp_cost img Hcov 0 Hr) as H2.
  pose proof (filterSumNone_cost img 0 Hcov Hr) as H0.
  change (0 * Spec.byteWidth img) with 0 in H4, H1, H2, H0. fold bw R P in H4, H1, H2, H0.
  split; [rewrite H4, H1, Hpaeth; reflexivity|].
  split; [rewrite H2, H0, Hup; reflexivity|].
  destruct (filter_rows img Hw Hcov Hh) as (out & Hout & _ & Hrows).
  specialize (Hrows 0 Hr). fold bw in Hrows.
  apply (f_equal (fun l => l !! 0%nat)) in Hrows.
  unfold Spec.filteredRow, Spec.encodedRow in Hrows. fold R P in Hrows.
  assert (0 <= bw) by (subst bw; unfold Spec.byteWidth, Spec.bpp; lia).
  rewrite lookup_take_lt, lookup_drop in Hrows by lia. simpl in Hrows.
  exists out, (Spec.code (Spec.cheapest R P)).
  split; [exact Hout|]. split; [exact Hrows|].
  unfold Spec.cheapest. simpl. repeat case_decide; simpl; lia.
Qed.

Lemma first_row_never_Paeth_witness :
  exists out t,
    Filter.filter Samples.column_b = Ok out /\ out !! 0%nat = Some (byte_of_Z t) /\ 1 <= t <= 3.
Proof.
  assert (Hvalid : Spec.valid Samples.column_b) by (repeat split; reflexivity).
  destruct (first_row_never_Paeth Samples.column_b Hvalid) as (_ & _ & Hrow).
  exact Hrow.
Defined.

(** X4. A row of a valid image that repeats the row above it costs
    nothing under Up, so the selection settles on Sub or Up and every
    transformed byte of the row is zero. *)
Theorem repeated_row_filters_to_zeros (img : Filter.ImageData) (r : Z) :
  Spec.valid img -> 0 < r < Filter.height img ->
  Spec.scanline img r = Spec.scanline img (r - 1) ->
  let bw := Spec.byteWidth img in
  Filter.filterSumUp (Filter.data img) (r * bw) bw = Num 0 /\
  exists out t,
    Filter.filter img = Ok out /\ 1 <= t <= 2 /\
    Spec.filteredRow bw out r = byte_of_Z t :: replicate (Z.to_nat bw) x00.
Proof.
  intros Hvalid Hr Hsame bw.
  destruct (valid_covers img Hvalid) as (Hw & Hh & Hcov).
  assert (Hrow : 0 <= r < Filter.height img) by lia.
  set (R := Spec.scanline img r). set (P := Spec.prior img r).
  assert (HP : P = R).
  { subst P R. unfold Spec.prior. rewrite decide_False by lia. symmetry. exact Hsame. }
  assert (Hup : Spec.cost Spec.Up R P = 0).
  { unfold Spec.cost. rewrite HP.
    assert (Hsum : forall n lo, Spec.sum_range lo n
                     (fun x => Z.abs (Spec.residual Spec.Up R R x)) = 0).
    { induction n as [|n IH]; intros lo; simpl; [reflexivity|].
      rewrite IH. unfold Spec.residual. simpl. lia. }
    apply Hsum. }
  split.
  { pose proof (filterSumUp_cost img Hcov r Hrow) as H2. fold bw R P in H2.
    rewrite H2, Hup. reflexivity. }
  set (k := Spec.cheapest R P).
  assert (Hk0 : Spec.cost k R P = 0).
  { pose proof (cheapest_minimal R P Spec.Up ltac:(discriminate)) as [Hle _].
    pose proof (cost_bounds img k R P). subst k. lia. }
  assert (Hk : 1 <= Spec.code k <= 2).
  { subst k. unfold Spec.cheapest in *. simpl in *.
    pose proof (cost_bounds img Spec.Average R P). pose proof (cost_bounds img Spec.Paeth R P).
    pose proof (cost_bounds img Spec.Sub R P).
    repeat case_decide; simpl; lia. }
  destruct (filter_rows img Hw Hcov Hh) as (out & Hout & _ & Hrows).
  exists out, (Spec.code k). split; [exact Hout|]. split; [exact Hk|].
  fold bw in Hrows. rewrite (Hrows r Hrow). unfold Spec.encodedRow. fold R P k.
  f_equal. apply list_eq. intros j.
  pose proof (length_scanline img Hcov r Hrow) as HlenR. fold R bw in HlenR.
  destruct (decide (j < length R)%nat) as [Hj|Hj].
  - rewrite lookup_filterScanline by exact Hj.
    rewrite lookup_replicate_2 by lia. f_equal.
    unfold Spec.filteredByte.
    assert (Z.abs (Spec.residual k R P (Z.of_nat j)) = 0) as Hres.
    { apply (sum_range_zero (fun x => Z.abs (Spec.residual k R P x)) (length R) 0);
        [intros; lia | exact Hk0 | lia]. }
    replace (Spec.residual k R P (Z.of_nat j)) with 0 by lia. reflexivity.
  - rewrite (proj2 (lookup_ge_None _ _)) by (rewrite length_filterScanline; lia).
    symmetry. apply lookup_replicate_None. lia.
Qed.

Lemma repeated_row_filters_to_zeros_witness :
  exists out t,
    Filter.filter Samples.twin_rows = Ok out /\ 1 <= t <= 2 /\
    Spec.filteredRow 4 out 1 = byte_of_Z t :: replicate 4 x00.
Proof.
  assert (Hvalid : Spec.valid Samples.twin_rows) by (repeat split; reflexivity).
  destruct (repeated_row_filters_to_zeros Samples.twin_rows 1 Hvalid
              ltac:(simpl; lia) eq_refl) as (_ & Hrow).
  exact Hrow.
Defined.

(** X5. An image of width 0 has empty scanlines: every sum is 0, Sub is
    kept, and a filtered buffer that [filter] returns is one byte 1 per
    row, whatever the pixel buffer holds; with height 0 it is empty. *)
Theorem filter_zero_width (img : Filter.ImageData) (out : Uint8Array) :
  Filter.width img = 0 ->
  Filter.filter img = Ok out ->
  out = replicate (Z.to_nat (Filter.height img)) x01.
Proof.
  intros Hw Hout.
  assert (Hbw : Spec.byteWidth img = 0) by (unfold Spec.byteWidth; rewrite Hw; reflexivity).
  destruct (filter_Ok_rows img out Hout) as (Hsize & Hlen & _ & Hrows).
  rewrite Hbw in Hsize, Hlen, Hrows. unfold len in Hlen.
  apply list_eq. intros j.
  destruct (decide (j < Z.to_nat (Filter.height img))%nat) as [Hj|Hj].
  - rewrite lookup_replicate_2 by exact Hj.
    specialize (Hrows (Z.of_nat j) ltac:(lia) ltac:(unfold len; lia)).
    apply (f_equal (fun l => l !! 0%nat)) in Hrows.
    unfold Spec.filteredRow, Spec.encodedRow, Spec.scanline in Hrows.
    rewrite Hbw in Hrows. simpl in Hrows.
    rewrite lookup_take_lt, lookup_drop in Hrows by lia.
    replace (Z.to_nat (Z.of_nat j * (0 + 1)) + 0)%nat with j in Hrows by lia.
    rewrite Hrows. reflexivity.
  - rewrite (proj2 (lookup_ge_None _ _)) by lia.
    symmetry. apply lookup_replicate_None. lia.
Qed.

Lemma filter_zero_width_witness :
  [x01; x01; x01] = replicate 3 x01.
Proof.
  apply (filter_zero_width {| Filter.width := 0; Filter.height := 3; Filter.data := [xff] |}
           [x01; x01; x01]);
    [reflexivity | vm_compute; reflexivity].
Defined.

(** X6. On a row of an image whose buffer covers its dimensions, each of
    the five sums is an integer between 0 and [255 * byteWidth]: no sum
    is [NaN], and none leaves the range in which doubles are exact unless
    the row is longer than 2^45 bytes. *)
Theorem filter_sums_bounded (img : Filter.ImageData) (r : Z) :
  0 <= Filter.width img ->
  Spec.byteWidth img * Filter.height img <= len (Filter.data img) ->
  0 <= r < Filter.height img ->
  let bw := Spec.byteWidth img in
  let d := Filter.data img in
  exists c0 c1 c2 c3 c4,
    Filter.filterSumNone d (r * bw) bw = Num c0 /\
    Filter.filterSumSub d (r * bw) bw 4 = Num c1 /\
    Filter.filterSumUp d (r * bw) bw = Num c2 /\
    Filter.filterSumAvg d (r * bw) bw 4 = Num c3 /\
    Filter.filterSumPaeth d (r * bw) bw 4 = Num c4 /\
    0 <= c0 <= 255 * bw /\ 0 <= c1 <= 255 * bw /\ 0 <= c2 <= 255 * bw /\
    0 <= c3 <= 255 * bw /\ 0 <= c4 <= 255 * bw.
Proof.
  intros Hw Hcov Hr bw d.
  set (R := Spec.scanline img r). set (P := Spec.prior img r).
  exists (Spec.cost Spec.NoFilter R P), (Spec.cost Spec.Sub R P), (Spec.cost Spec.Up R P),
         (Spec.cost Spec.Average R P), (Spec.cost Spec.Paeth R P).
  assert (Hbw : 0 <= bw) by (subst bw; unfold Spec.byteWidth, Spec.bpp; lia).
  assert (Hbound : forall k, 0 <= Spec.cost k R P <= 255 * bw).
  { intros k. pose proof (cost_bounds img k R P) as Hc.
    subst R. rewrite length_scanline in Hc by assumption. fold bw in Hc. lia. }
  split; [apply filterSumNone_cost; assumption|].
  split; [apply filterSumSub_cost; assumption|].
  split; [apply filterSumUp_cost; assumption|].
  split; [apply filterSumAvg_cost; assumption|].
  split; [apply filterSumPaeth_cost; assumption|].
  repeat split; apply Hbound.
Qed.

Lemma filter_sums_bounded_witness :
  exists c1, Filter.filterSumSub (Filter.data Samples.red_2x1) 0 8 4 = Num c1 /\ 0 <= c1 <= 2040.
Proof.
  destruct (filter_sums_bounded Samples.red_2x1 0 ltac:(simpl; lia)
              ltac:(unfold Spec.byteWidth, Spec.bpp, len; simpl; lia) ltac:(simpl; lia))
    as (c0 & c1 & c2 & c3 & c4 & _ & H1 & _ & _ & _ & _ & Hb1 & _).
  exists c1. split; [exact H1 | exact Hb1].
Defined.

(** ** [copy], [filterNone] and the deprecated [_filterData] *)

Lemma subarray_take_drop (a : Uint8Array) (pos n : Z) :
  0 <= pos -> 0 <= n ->
  subarray a pos (pos + n) = take (Z.to_nat n) (drop (Z.to_nat pos) a).
Proof.
  intros Hpos Hn. unfold subarray, rel_index, len. rewrite !decide_False by lia.
  destruct (decide (Z.of_nat (length a) <= pos)) as [Hbeyond|Hin].
  - rewrite (drop_ge a (Z.to_nat pos)) by lia.
    rewrite (drop_ge a) by lia. rewrite !take_nil. reflexivity.
  - replace (Z.to_nat (Z.min pos (Z.of_nat (length a)))) with (Z.to_nat pos) by lia.
    destruct (decide (pos + n <= Z.of_nat (length a))) as [Hfit|Hlong].
    + f_equal. lia.
    + rewrite !take_ge; [reflexivity | rewrite length_drop; lia | rewrite length_drop; lia].
Qed.

Lemma lookup_set (to src r : Uint8Array) (i : Z) (idx : nat) :
  set to src i = Ok r ->
  r !! idx =
    if decide (i <= Z.of_nat idx < i + len src)
    then src !! Z.to_nat (Z.of_nat idx - i)
    else to !! idx.
Proof.
  unfold set, len. case_decide as Hfit; [|discriminate]. intros [= <-].
  destruct Hfit as [Hi Hfit].
  case_decide as Hin.
  - rewrite lookup_app_r by (rewrite length_take; lia).
    rewrite length_take. rewrite lookup_app_l by lia. f_equal. lia.
  - destruct (decide (Z.of_nat idx < i)).
    + rewrite lookup_app_l by (rewrite length_take; lia).
      apply lookup_take_lt. lia.
    + rewrite lookup_app_r by (rewrite length_take; lia).
      rewrite length_take. rewrite lookup_app_r by lia.
      rewrite lookup_drop. f_equal. lia.
Qed.

Lemma length_set (to src r : Uint8Array) (i : Z) :
  set to src i = Ok r -> length r = length to.
Proof.
  unfold set, len. case_decide as Hfit; [|discriminate]. intros [= <-].
  rewrite !length_app, length_take, length_drop. lia.
Qed.

(** [copy] with both optional arguments: the piece is cut with [take]
    and [drop], and [set] decides whether it fits. *)
Lemma copy_set_piece (from to : Uint8Array) (toStartIndex length fromStartPos : Z) :
  0 <= length -> 0 <= fromStartPos ->
  let piece := take (Z.to_nat length) (drop (Z.to_nat fromStartPos) from) in
  (0 <= toStartIndex /\ toStartIndex + len piece <= len to ->
   exists r,
     PngWriter.copy from to toStartIndex (Some length) (Some fromStartPos) = Ok r /\
     len r = len to /\
     take (Z.to_nat (len piece)) (drop (Z.to_nat toStartIndex) r) = piece /\
     forall idx : nat,
       ~ (toStartIndex <= Z.of_nat idx < toStartIndex + len piece) -> r !! idx = to !! idx) /\
  (~ (0 <= toStartIndex /\ toStartIndex + len piece <= len to) ->
   PngWriter.copy from to toStartIndex (Some length) (Some fromStartPos) = Throw RangeError).
Proof.
  intros Hlength Hpos piece.
  assert (Hcopy : PngWriter.copy from to toStartIndex (Some length) (Some fromStartPos)
                  = set to piece toStartIndex).
  { unfold PngWriter.copy. simpl default. rewrite subarray_take_drop by assumption.
    reflexivity. }
  split.
  - intros Hfit. rewrite Hcopy.
    destruct (set to piece toStartIndex) as [r|e] eqn:Hset.
    2: { unfold set in Hset. rewrite decide_True in Hset by exact Hfit. discriminate. }
    exists r. split; [reflexivity|].
    pose proof (length_set _ _ _ _ Hset) as Hlen.
    split; [unfold len; lia|]. split.
    + apply list_eq. intros j. rewrite lookup_take, lookup_drop.
      rewrite (lookup_set _ _ _ _ _ Hset).
      destruct (decide (j < Z.to_nat (len piece))%nat) as [Hj|Hj].
      * rewrite decide_True by lia. f_equal. lia.
      * symmetry. apply lookup_ge_None. unfold len in Hj. lia.
    + intros idx Hidx. rewrite (lookup_set _ _ _ _ _ Hset).
      rewrite decide_False by exact Hidx. reflexivity.
  - intros Hnofit. rewrite Hcopy. unfold set.
    rewrite decide_False by exact Hnofit. reflexivity.
Qed.

(** X7. [copy] reads the source through [subarray], which clamps: the
    piece copied is what exists of the [length] bytes from [fromStartPos]
    on (all of the source when both are omitted).  It throws a
    [RangeError] exactly when that piece does not fit into the
    destination at [toStartIndex]; otherwise the destination keeps its
    length, holds the piece there, and is unchanged elsewhere. *)
Theorem copy_piece (from to : Uint8Array) (toStartIndex length fromStartPos : Z) :
  0 <= length -> 0 <= fromStartPos ->
  let piece := take (Z.to_nat length) (drop (Z.to_nat fromStartPos) from) in
  len piece = Z.max 0 (Z.min length (len from - fromStartPos)) /\
  PngWriter.copy from to toStartIndex None None
  = PngWriter.copy from to toStartIndex (Some (len from)) (Some 0) /\
  (0 <= toStartIndex /\ toStartIndex + len piece <= len to ->
   exists r,
     PngWriter.copy from to toStartIndex (Some length) (Some fromStartPos) = Ok r /\
     len r = len to /\
     take (Z.to_nat (len piece)) (drop (Z.to_nat toStartIndex) r) = piece /\
     forall idx : nat,
       ~ (toStartIndex <= Z.of_nat idx < toStartIndex + len piece) -> r !! idx = to !! idx) /\
  (~ (0 <= toStartIndex /\ toStartIndex + len piece <= len to) ->
   PngWriter.copy from to toStartIndex (Some length) (Some fromStartPos) = Throw RangeError).
Proof.
  intros Hlength Hpos piece.
  split.
  { subst piece. unfold len. rewrite length_take, length_drop. lia. }
  split; [reflexivity|].
  apply copy_set_piece; assumption.
Qed.

Lemma copy_piece_witness :
  (exists r,
     PngWriter.copy [x01; x02; x03] [x00; x00; x00; x00] 1 (Some 5) (Some 1) = Ok r /\
     take 2 (drop 1 r) = [x02; x03]) /\
  PngWriter.copy [x01; x02; x03] [x00; x00] 1 (Some 5) (Some 1) = Throw RangeError.
Proof.
  destruct (copy_piece [x01; x02; x03] [x00; x00; x00; x00] 1 5 1 ltac:(lia) ltac:(lia))
    as (_ & _ & Hok & _).
  destruct (copy_piece [x01; x02; x03] [x00; x00] 1 5 1 ltac:(lia) ltac:(lia))
    as (_ & _ & _ & Hthrow).
  split.
  - destruct (Hok ltac:(unfold len; simpl; lia)) as (r & Hr & _ & Hpiece & _).
    exists r. split; [exact Hr | exact Hpiece].
  - apply Hthrow. unfold len. simpl. lia.
Defined.

Lemma filterScanline_NoFilter (R P : list byte) : Spec.filterScanline Spec.NoFilter R P = R.
Proof.
  apply list_eq. intros j.
  destruct (R !! j) as [b|] eqn:Hb.
  - rewrite lookup_filterScanline by (apply lookup_lt_Some in Hb; exact Hb).
    unfold Spec.filteredByte. rewrite residual_NoFilter, (byteAt_lookup R j b Hb).
    rewrite byte_of_to_Z. reflexivity.
  - apply lookup_ge_None. rewrite length_filterScanline. apply lookup_ge_None. exact Hb.
Qed.

(** X8. Entry 0 of the table, which the selection never reaches: on a row
    of an image whose buffer covers its dimensions its sum is the sum of
    the bytes of the scanline, and its transform copies the scanline into
    the destination unchanged.  Unlike the other four transforms, which
    drop stores that fall outside the destination, it throws a
    [RangeError] when the scanline does not fit. *)
Theorem filterNone_entry (img : Filter.ImageData) (r : Z) (dst : Uint8Array) (pos : Z) :
  0 <= Filter.width img ->
  Spec.byteWidth img * Filter.height img <= len (Filter.data img) ->
  0 <= r < Filter.height img ->
  let bw := Spec.byteWidth img in
  let R := Spec.scanline img r in
  exists e,
    Filter.FILTER_TYPES_at 0 = Ok e /\ Filter.entry_type e = 0 /\
    Filter.entry_sum e (Filter.data img) (r * bw) bw 4
    = Num (Spec.sum_range 0 (length R) (fun x => Spec.byteAt R x)) /\
    (0 <= pos /\ pos + bw <= len dst ->
     exists dst',
       Filter.entry_filter e (Filter.data img) (r * bw) bw dst pos 4 = Ok dst' /\
       len dst' = len dst /\
       take (Z.to_nat bw) (drop (Z.to_nat pos) dst') = R /\
       forall idx : nat, ~ (pos <= Z.of_nat idx < pos + bw) -> dst' !! idx = dst !! idx) /\
    (~ (0 <= pos /\ pos + bw <= len dst) ->
     Filter.entry_filter e (Filter.data img) (r * bw) bw dst pos 4 = Throw RangeError).
Proof.
  intros Hw Hcov Hr bw R.
  assert (Hbw : 0 <= bw) by (subst bw; unfold Spec.byteWidth, Spec.bpp; lia).
  assert (HlenR : len R = bw).
  { unfold len. subst R. rewrite length_scanline by assumption. fold bw. lia. }
  eexists. split; [reflexivity|]. split; [reflexivity|]. simpl.
  split.
  { fold bw. subst bw. rewrite filterSumNone_cost by assumption. unfold Spec.cost.
    fold R. f_equal. apply sum_range_ext. intros i _.
    rewrite residual_NoFilter. pose proof (byteAt_range R i). lia. }
  unfold Filter.filterNone.
  destruct (copy_set_piece (Filter.data img) dst pos bw (r * bw) Hbw ltac:(nia))
    as (Hok & Hthrow).
  change (take (Z.to_nat bw) (drop (Z.to_nat (r * bw)) (Filter.data img))) with R in Hok, Hthrow.
  rewrite HlenR in Hok, Hthrow.
  split; [exact Hok | exact Hthrow].
Qed.

Lemma filterNone_entry_witness :
  exists e,
    Filter.FILTER_TYPES_at 0 = Ok e /\
    (exists dst',
       Filter.entry_filter e (Filter.data Samples.red_1x1) 0 4 [x00; x00; x00; x00; x00] 1 4
       = Ok dst' /\
       take 4 (drop 1 dst') = [xff; x00; x00; xff]) /\
    Filter.entry_filter e (Filter.data Samples.red_1x1) 0 4 [x00; x00; x00; x00] 1 4
    = Throw RangeError.
Proof.
  destruct (filterNone_entry Samples.red_1x1 0 [x00; x00; x00; x00; x00] 1
              ltac:(simpl; lia) ltac:(unfold Spec.byteWidth, Spec.bpp, len; simpl; lia)
              ltac:(simpl; lia)) as (e & He & _ & _ & Hok & _).
  destruct (filterNone_entry Samples.red_1x1 0 [x00; x00; x00; x00] 1
              ltac:(simpl; lia) ltac:(unfold Spec.byteWidth, Spec.bpp, len; simpl; lia)
              ltac:(simpl; lia)) as (e' & He' & _ & _ & _ & Hthrow).
  assert (e' = e) as -> by congruence.
  exists e. split; [exact He|]. split.
  - destruct (Hok ltac:(unfold Spec.byteWidth, Spec.bpp, len; simpl; lia))
      as (dst' & Hdst' & _ & Hrow & _).
    exists dst'. split; [exact Hdst' | exact Hrow].
  - apply Hthrow. unfold Spec.byteWidth, Spec.bpp, len. simpl. lia.
Defined.

(** Decoding a filtered buffer whose row [r] was produced by the filter
    [kinds r], whichever it is. *)
Lemma unfilterRows_kinds (img : Filter.ImageData) (out : Uint8Array)
    (kinds : Z -> Spec.FilterKind) :
  Spec.valid img ->
  (forall r, 0 <= r < Filter.height img ->
     Spec.filteredRow (Spec.byteWidth img) out r
     = byte_of_Z (Spec.code (kinds r))
       :: Spec.filterScanline (kinds r) (Spec.scanline img r) (Spec.prior img r)) ->
  forall (n : nat) (r : Z),
    0 <= r -> r + Z.of_nat n = Filter.height img ->
    Spec.unfilterRows (Z.to_nat (Spec.byteWidth img)) n (Spec.prior img r)
      (drop (Z.to_nat (r * (Spec.byteWidth img + 1))) out)
    = Some (drop (Z.to_nat (r * Spec.byteWidth img)) (Filter.data img)).
Proof.
  intros Hvalid Hrows.
  destruct (valid_covers img Hvalid) as (Hw & Hh & Hcov).
  assert (Hbw : 0 <= Spec.byteWidth img) by (unfold Spec.byteWidth, Spec.bpp; lia).
  induction n as [|n IH]; intros r Hr Hn.
  - simpl. f_equal. symmetry. apply drop_ge.
    destruct Hvalid as (_ & _ & Hdata). unfold len in Hdata.
    unfold Spec.byteWidth, Spec.bpp. nia.
  - assert (Hrow : 0 <= r < Filter.height img) by lia.
    pose proof (Hrows r Hrow) as Hthis. unfold Spec.filteredRow in Hthis.
    assert (Hsplit : drop (Z.to_nat (r * (Spec.byteWidth img + 1))) out
                     = (byte_of_Z (Spec.code (kinds r))
                        :: Spec.filterScanline (kinds r) (Spec.scanline img r) (Spec.prior img r))
                       ++ drop (Z.to_nat ((r + 1) * (Spec.byteWidth img + 1))) out).
    { rewrite <- Hthis.
      replace (Z.to_nat ((r + 1) * (Spec.byteWidth img + 1)))
        with (Z.to_nat (r * (Spec.byteWidth img + 1))
              + Z.to_nat (Spec.byteWidth img + 1))%nat by nia.
      rewrite <- drop_drop. symmetry. apply take_drop. }
    rewrite Hsplit. cbn [app Spec.unfilterRows]. rewrite kindOf_code.
    assert (HlenF : length (Spec.filterScanline (kinds r) (Spec.scanline img r) (Spec.prior img r))
                    = Z.to_nat (Spec.byteWidth img))
      by (rewrite length_filterScanline; apply length_scanline; assumption).
    rewrite take_app_length' by (symmetry; exact HlenF).
    rewrite drop_app_length' by (symmetry; exact HlenF).
    rewrite unfilter_filterScanline.
    replace (Spec.scanline img r) with (Spec.prior img (r + 1)) at 1.
    2: { unfold Spec.prior. rewrite decide_False by lia. f_equal. lia. }
    rewrite (IH (r + 1)) by lia.
    f_equal. apply scanline_drop; assumption.
Qed.

(** X9. The deprecated [_filterData], for a valid image: it returns a
    buffer of the same size as [filter] does, in which every row is the
    byte 0 followed by the scanline unchanged, and from which a PNG
    decoder gets the pixel buffer back. *)
Theorem filterData_rows (img : Filter.ImageData) :
  Spec.valid img ->
  let bw := Spec.byteWidth img in
  exists out,
    Writer._filterData img = Ok out /\
    len out = (bw + 1) * Filter.height img /\
    (forall r, 0 <= r < Filter.height img ->
       Spec.filteredRow bw out r = x00 :: Spec.scanline img r) /\
    Spec.unfilter (Filter.width img) (Filter.height img) out = Some (Filter.data img).
Proof.
  intros Hvalid bw.
  destruct (valid_covers img Hvalid) as (Hw & Hh & Hcov). fold bw in Hcov.
  assert (Hbw4 : bw = Filter.width img * 4) by reflexivity.
  assert (Hbw : 0 <= bw) by lia.
  unfold Writer._filterData, new_Uint8Array. rewrite <- Hbw4.
  rewrite decide_True by nia. simpl bind. unfold for_loopM.
  destruct (for_rangeM_invariant
              (fun i (st : Uint8Array * Z * Z) =>
                 snd (fst st) = i * (bw + 1) /\ snd st = i * bw /\
                 len (fst (fst st)) = (bw + 1) * Filter.height img /\
                 forall r (idx : nat), 0 <= r < i ->
                   r * (bw + 1) <= Z.of_nat idx < (r + 1) * (bw + 1) ->
                   fst (fst st) !! idx
                   = (x00 :: Spec.scanline img r) !! Z.to_nat (Z.of_nat idx - r * (bw + 1)))
              (fun (_ : Z) '(filtered, filterTypePos, fromPos) =>
                 try! filtered0 :=
                   PngWriter.copy (Filter.data img) (store filtered filterTypePos (Num 0))
                     (filterTypePos + 1) (Some bw) (Some fromPos) in
                 Ok (filtered0, filterTypePos + (bw + 1), fromPos + bw))
              (Z.to_nat (Filter.height img - 0)) 0
              (replicate (Z.to_nat ((bw + 1) * Filter.height img)) x00, 0, 0))
    as (st & Hst & _ & _ & Hlen & Hrows).
  - simpl. split; [lia|]. split; [lia|]. split.
    + unfold len. rewrite length_replicate. nia.
    + intros r idx Hr. lia.
  - intros i [[filtered pos] from] Hi (Hpos & Hfrom & Hlen & Hrows). simpl in Hpos, Hfrom, Hlen, Hrows.
    subst pos from.
    destruct (copy_set_piece (Filter.data img) (store filtered (i * (bw + 1)) (Num 0))
                (i * (bw + 1) + 1) bw (i * bw) Hbw ltac:(nia))
      as (Hok & _).
    pose proof (length_scanline img Hcov i ltac:(lia)) as HlenR. fold bw in HlenR.
    change (take (Z.to_nat bw) (drop (Z.to_nat (i * bw)) (Filter.data img)))
      with (Spec.scanline img i) in Hok.
    assert (HlenR' : len (Spec.scanline img i) = bw) by (unfold len; lia).
    rewrite HlenR' in Hok.
    destruct (Hok ltac:(unfold len in *; rewrite length_store; nia))
      as (filtered' & -> & Hlen' & Hpiece & Hframe).
    simpl bind. eexists. split; [reflexivity|]. simpl.
    split; [lia|]. split; [lia|]. split.
    + rewrite Hlen'. unfold len in *. rewrite length_store. exact Hlen.
    + intros r idx Hr Hidx.
      destruct (decide (r = i)) as [->|Hne].
      * destruct (decide (Z.of_nat idx = i * (bw + 1))) as [Heq|Hne'].
        -- rewrite Hframe by lia. rewrite lookup_store.
           rewrite decide_True by (unfold len in Hlen; nia).
           replace (Z.to_nat (Z.of_nat idx - i * (bw + 1))) with 0%nat by lia.
           reflexivity.
        -- replace (Z.to_nat (Z.of_nat idx - i * (bw + 1)))
             with (S (Z.to_nat (Z.of_nat idx - (i * (bw + 1) + 1)))) by lia.
           simpl. rewrite <- Hpiece. rewrite lookup_take_lt, lookup_drop by lia.
           f_equal. lia.
      * rewrite Hframe by nia. rewrite lookup_store, decide_False by nia.
        apply Hrows; lia.
  - rewrite Hst. simpl bind. simpl in Hlen, Hrows.
    assert (Hrows' : forall r, 0 <= r < Filter.height img ->
                       Spec.filteredRow bw (fst (fst st)) r = x00 :: Spec.scanline img r).
    { intros r Hr. apply list_eq. intros j.
      unfold Spec.filteredRow. rewrite lookup_take, lookup_drop.
      pose proof (length_scanline img Hcov r Hr) as HlenR. fold bw in HlenR.
      case_decide as Hj.
      + replace (Z.to_nat (r * (bw + 1)) + j)%nat
          with (Z.to_nat (r * (bw + 1) + Z.of_nat j)) by nia.
        rewrite (Hrows r) by nia. f_equal. nia.
      + symmetry. apply lookup_ge_None. simpl. lia. }
    eexists. split; [reflexivity|]. split; [exact Hlen|]. split; [exact Hrows'|].
    pose proof (unfilterRows_kinds img (fst (fst st)) (fun _ => Spec.NoFilter) Hvalid) as Hdecode.
    specialize (Hdecode ltac:(intros r Hr; rewrite filterScanline_NoFilter; apply Hrows'; exact Hr)).
    specialize (Hdecode (Z.to_nat (Filter.height img)) 0 ltac:(lia) ltac:(lia)).
    unfold Spec.prior in Hdecode. rewrite decide_True in Hdecode by reflexivity.
    exact Hdecode.
Qed.

Lemma filterData_rows_witness :
  exists out,
    Writer._filterData Samples.twin_rows = Ok out /\
    Spec.unfilter 1 2 out = Some (Filter.data Samples.twin_rows).
Proof.
  assert (Hvalid : Spec.valid Samples.twin_rows) by (repeat split; reflexivity).
  destruct (filterData_rows Samples.twin_rows Hvalid) as (out & Hout & _ & _ & Hback).
  exists out. split; [exact Hout | exact Hback].
Defined.

(** ** More on the Paeth predictor *)

(** X10. On bytes the Paeth predictor returns one of its three arguments,
    and one that is nearest to the estimate [p = a + b - c]: no other
    argument is strictly closer.  When an argument is [NaN] (a neighbour
    read out of range) every comparison fails and the upper-left argument
    is returned. *)
Theorem paethPredictor_nearest (left above upperLeft : byte) :
  let a := byte_to_Z left in
  let b := byte_to_Z above in
  let c := byte_to_Z upperLeft in
  let p := a + b - c in
  (exists r,
     Filter.paethPredictor (Num a) (Num b) (Num c) = Num r /\
     (r = a \/ r = b \/ r = c) /\
     Z.abs (p - r) <= Z.abs (p - a) /\
     Z.abs (p - r) <= Z.abs (p - b) /\
     Z.abs (p - r) <= Z.abs (p - c)) /\
  (forall x y, Filter.paethPredictor NaN x y = y) /\
  (forall x y, Filter.paethPredictor x NaN y = y) /\
  (forall x y, Filter.paethPredictor x y NaN = NaN).
Proof.
  intros a b c p. split.
  - exists (Spec.PaethPredictor a b c). split; [apply paethPredictor_Num|].
    unfold Spec.PaethPredictor. fold p.
    repeat case_decide; lia.
  - split; [intros x y; destruct x, y; reflexivity|].
    split; intros x y; destruct x, y; reflexivity.
Qed.

(** ** More on the chunk writer *)

Lemma writeAsBigEndian_ToUint32 (arr : Uint8Array) (v : number) (i : Z) :
  PngWriter._writeAsBigEndian arr v i = PngWriter._writeAsBigEndian arr (Num (ToUint32 v)) i.
Proof.
  unfold PngWriter._writeAsBigEndian, shr.
  assert (H : ToUint32 (Num (ToUint32 v)) = ToUint32 v).
  { destruct v; simpl; [apply Z.mod_mod; lia | reflexivity..]. }
  rewrite H. reflexivity.
Qed.

(** X11. [_writeAsBigEndian] never changes the length of the array and
    touches only the four cells from [startIndex] on; cells that fall
    outside the array are skipped without an exception.  When the four
    cells exist they read back, big-endian, as the value modulo 2^32 (0
    for [NaN]), so a negative value such as a signed CRC is written in
    two's complement. *)
Theorem writeAsBigEndian_cells (arr : Uint8Array) (value : number) (startIndex : Z) :
  let arr' := PngWriter._writeAsBigEndian arr value startIndex in
  length arr' = length arr /\
  (forall idx : nat,
     ~ (startIndex <= Z.of_nat idx < startIndex + 4) -> arr' !! idx = arr !! idx) /\
  (0 <= startIndex -> startIndex + 4 <= len arr ->
   Spec.uint32_of_be (take 4 (drop (Z.to_nat startIndex) arr')) = ToUint32 value) /\
  (len arr <= startIndex \/ startIndex <= -4 -> arr' = arr).
Proof.
  intros arr'.
  assert (Hlen : length arr' = length arr).
  { subst arr'. unfold PngWriter._writeAsBigEndian. rewrite !length_store. reflexivity. }
  assert (Hframe : forall idx : nat,
             ~ (startIndex <= Z.of_nat idx < startIndex + 4) -> arr' !! idx = arr !! idx).
  { intros idx Hidx. subst arr'. unfold PngWriter._writeAsBigEndian.
    rewrite !lookup_store. rewrite !decide_False by lia. reflexivity. }
  split; [exact Hlen|]. split; [exact Hframe|]. split.
  - intros Hstart Hroom. subst arr'. rewrite writeAsBigEndian_ToUint32.
    unfold len in Hroom.
    set (pre := take (Z.to_nat startIndex) arr).
    set (post := drop 4 (drop (Z.to_nat startIndex) arr)).
    assert (Hsplit : arr = pre ++ take 4 (drop (Z.to_nat startIndex) arr) ++ post)
      by (subst pre post; rewrite !take_drop; reflexivity).
    assert (Hfour : length (take 4 (drop (Z.to_nat startIndex) arr)) = 4%nat)
      by (rewrite length_take, length_drop; lia).
    destruct (take 4 (drop (Z.to_nat startIndex) arr)) as [|b0 [|b1 [|b2 [|b3 [|]]]]];
      try discriminate Hfour.
    assert (Hpre : len pre = startIndex)
      by (subst pre; unfold len; rewrite length_take; lia).
    pose proof (writeAsBigEndian_app pre post b0 b1 b2 b3 (ToUint32 value)) as Hwrite.
    rewrite Hpre, <- Hsplit in Hwrite. rewrite Hwrite.
    rewrite drop_app_length' by (unfold len in Hpre; lia).
    change (take 4 (Spec.uint32_be (ToUint32 value) ++ post))
      with (Spec.uint32_be (ToUint32 value)).
    rewrite uint32_of_be_uint32_be.
    destruct value; simpl; [apply Z.mod_mod; lia | reflexivity..].
  - intros Hout. apply list_eq. intros idx.
    destruct (decide (startIndex <= Z.of_nat idx < startIndex + 4)) as [Hin|Hnot];
      [|apply Hframe; exact Hnot].
    destruct Hout as [Hhigh|Hlow]; [|lia].
    unfold len in Hhigh.
    rewrite !(proj2 (lookup_ge_None _ _)) by lia. reflexivity.
Qed.

Lemma writeAsBigEndian_cells_witness :
  Spec.uint32_of_be
    (take 4 (drop 1 (PngWriter._writeAsBigEndian [x00; x00; x00; x00; x00] (Num (-1)) 1)))
  = 4294967295 /\
  PngWriter._writeAsBigEndian [x00; x00] (Num 7) 2 = [x00; x00].
Proof.
  destruct (writeAsBigEndian_cells [x00; x00; x00; x00; x00] (Num (-1)) 1)
    as (_ & _ & Hread & _).
  destruct (writeAsBigEndian_cells [x00; x00] (Num 7) 2) as (_ & _ & _ & Hskip).
  split.
  - apply (Hread ltac:(lia) ltac:(unfold len; simpl; lia)).
  - apply Hskip. left. unfold len. simpl. lia.
Defined.

(** ** Reading the output back *)

Lemma readChunk_chunk (crc32 : Z -> Uint8Array -> Z -> Z -> Z)
    (type : Z) (payload rest : list byte) :
  len payload < 2 ^ 32 ->
  Reader.readChunk (Spec.chunk crc32 type payload ++ rest)
  = Some (type mod 2 ^ 32, payload,
          crc32 0 (Spec.uint32_be type ++ payload) (4 + len payload) 0 mod 2 ^ 32,
          rest).
Proof.
  intros Hsmall. unfold Reader.readChunk, Spec.chunk.
  set (crc := crc32 0 (Spec.uint32_be type ++ payload) (4 + len payload) 0).
  rewrite <- !app_assoc.
  change (take 4 (Spec.uint32_be (len payload) ++ ?l)) with (Spec.uint32_be (len payload)).
  assert (Hn : Spec.uint32_of_be (Spec.uint32_be (len payload)) = len payload).
  { rewrite uint32_of_be_uint32_be. apply Z.mod_small. pose proof (len_nonneg payload). lia. }
  cbv zeta.
  change (take 4 (Spec.uint32_be (len payload) ++ Spec.uint32_be type ++ payload
                  ++ Spec.uint32_be crc ++ rest))
    with (Spec.uint32_be (len payload)).
  rewrite Hn.
  rewrite decide_True.
  2: { rewrite !len_app. unfold len. simpl. lia. }
  change (drop 4 (Spec.uint32_be (len payload) ++ Spec.uint32_be type ++ payload
                  ++ Spec.uint32_be crc ++ rest))
    with (Spec.uint32_be type ++ payload ++ Spec.uint32_be crc ++ rest).
  change (take 4 (Spec.uint32_be type ++ payload ++ Spec.uint32_be crc ++ rest))
    with (Spec.uint32_be type).
  change (drop 8 (Spec.uint32_be (len payload) ++ Spec.uint32_be type ++ payload
                  ++ Spec.uint32_be crc ++ rest))
    with (payload ++ Spec.uint32_be crc ++ rest).
  replace (Z.to_nat (len payload)) with (length payload) by (unfold len; lia).
  rewrite take_app_length.
  replace (Z.to_nat (8 + len payload)) with (8 + length payload)%nat by (unfold len; lia).
  replace (Z.to_nat (12 + len payload)) with (8 + (length payload + 4))%nat by (unfold len; lia).
  change (drop (8 + length payload)
            (Spec.uint32_be (len payload) ++ Spec.uint32_be type ++ payload
             ++ Spec.uint32_be crc ++ rest))
    with (drop (length payload) (payload ++ Spec.uint32_be crc ++ rest)).
  change (drop (8 + (length payload + 4))
            (Spec.uint32_be (len payload) ++ Spec.uint32_be type ++ payload
             ++ Spec.uint32_be crc ++ rest))
    with (drop (length payload + 4) (payload ++ Spec.uint32_be crc ++ rest)).
  rewrite drop_app_length.
  change (take 4 (Spec.uint32_be crc ++ rest)) with (Spec.uint32_be crc).
  rewrite <- drop_drop, drop_app_length.
  change (drop 4 (Spec.uint32_be crc ++ rest)) with rest.
  rewrite !uint32_of_be_uint32_be. reflexivity.
Qed.

Lemma readChunks_step (fuel : nat) (crc32 : Z -> Uint8Array -> Z -> Z -> Z)
    (type : Z) (payload rest : list byte) :
  len payload < 2 ^ 32 ->
  Reader.readChunks (S fuel) (Spec.chunk crc32 type payload ++ rest)
  = match Reader.readChunks fuel rest with
    | None => None
    | Some chunks =>
        Some ((type mod 2 ^ 32, payload,
               crc32 0 (Spec.uint32_be type ++ payload) (4 + len payload) 0 mod 2 ^ 32)
              :: chunks)
    end.
Proof.
  intros Hsmall.
  assert (Hstep : forall bs, bs <> [] ->
            Reader.readChunks (S fuel) bs
            = match Reader.readChunk bs with
              | None => None
              | Some (type, payload, crc, rest) =>
                  match Reader.readChunks fuel rest with
                  | None => None
                  | Some chunks => Some ((type, payload, crc) :: chunks)
                  end
              end)
    by (intros [|b bs] Hbs; [congruence | reflexivity]).
  rewrite Hstep by (unfold Spec.chunk; discriminate).
  rewrite readChunk_chunk by exact Hsmall. reflexivity.
Qed.

(** X12. What [write] returns can be read back: a reader of the chunk
    container finds, after the signature, exactly three chunks, IHDR,
    IDAT and IEND, each with the checksum of its type and payload; the
    IHDR payload decodes to the width and height of the image followed by
    8, 6, 0, 0, 0, the IDAT payload is what the compressor returned and
    the IEND payload is empty.  (Widths, heights and payload lengths
    below 2^32.) *)
Theorem write_read_back (crc32 : Z -> Uint8Array -> Z -> Z -> Z)
    (deflate : Uint8Array -> object -> result Uint8Array)
    (img : Filter.ImageData) (options : option object) (filtered compressed : Uint8Array) :
  Filter.filter img = Ok filtered ->
  deflate filtered (Writer.forwarded options) = Ok compressed ->
  len compressed < 2 ^ 32 ->
  0 <= Filter.width img < 2 ^ 32 -> 0 <= Filter.height img < 2 ^ 32 ->
  let crc := fun type payload =>
    crc32 0 (Spec.uint32_be type ++ payload) (4 + len payload) 0 mod 2 ^ 32 in
  exists out ihdr,
    Writer.write crc32 deflate img options = Ok out /\
    Reader.readPng out
    = Some [(PngWriter.TYPE_IHDR, ihdr, crc PngWriter.TYPE_IHDR ihdr);
            (PngWriter.TYPE_IDAT, compressed, crc PngWriter.TYPE_IDAT compressed);
            (PngWriter.TYPE_IEND, [], crc PngWriter.TYPE_IEND [])] /\
    Spec.uint32_of_be (take 4 ihdr) = Filter.width img /\
    Spec.uint32_of_be (take 4 (drop 4 ihdr)) = Filter.height img /\
    drop 8 ihdr = [x08; x06; x00; x00; x00].
Proof.
  intros Hfilter Hdeflate Hsmall Hw Hh crc.
  exists (Spec.png crc32 (Filter.width img) (Filter.height img) compressed),
         (Spec.ihdrPayload (Filter.width img) (Filter.height img)).
  split; [apply (write_png crc32 deflate img options filtered compressed Hfilter Hdeflate)|].
  split.
  - unfold Reader.readPng, Spec.png.
    rewrite decide_True by reflexivity.
    change (drop 8 (Spec.SIGNATURE ++ ?l)) with l.
    remember (length (Spec.SIGNATURE ++
                Spec.chunk crc32 1229472850 (Spec.ihdrPayload (Filter.width img) (Filter.height img)) ++
                Spec.chunk crc32 1229209940 compressed ++ Spec.chunk crc32 1229278788 []))
      as fuel eqn:Hfuel.
    assert (3 <= fuel)%nat as Hge by (subst fuel; simpl; lia).
    destruct fuel as [|[|[|fuel]]]; try lia.
    rewrite readChunks_step by (unfold len; simpl; lia).
    rewrite readChunks_step by exact Hsmall.
    rewrite <- (app_nil_r (Spec.chunk crc32 1229278788 [])).
    rewrite readChunks_step by (unfold len; simpl; lia).
    destruct fuel; reflexivity.
  - unfold Spec.ihdrPayload.
    change (take 4 (Spec.uint32_be (Filter.width img) ++ ?l))
      with (Spec.uint32_be (Filter.width img)).
    change (take 4 (drop 4 (Spec.uint32_be (Filter.width img)
                            ++ Spec.uint32_be (Filter.height img) ++ ?l)))
      with (Spec.uint32_be (Filter.height img)).
    rewrite !uint32_of_be_uint32_be, !Z.mod_small by lia.
    repeat split; reflexivity.
Qed.

Lemma write_read_back_witness :
  exists out chunks,
    Writer.write Samples.crc_zero Samples.deflate_identity Samples.red_1x1 None = Ok out /\
    Reader.readPng out = Some chunks /\ length chunks = 3%nat.
Proof.
  destruct (write_read_back Samples.crc_zero Samples.deflate_identity Samples.red_1x1 None
              [x01; xff; x00; x00; xff] [x01; xff; x00; x00; xff]
              eq_refl eq_refl ltac:(unfold len; simpl; lia)
              ltac:(simpl; lia) ltac:(simpl; lia))
    as (out & ihdr & Hout & Hread & _).
  exists out. eexists. split; [exact Hout|]. split; [exact Hread | reflexivity].
Defined.

(** ** The data URL *)

Lemma binary_loop (buffer : Uint8Array) (n : nat) (lo : nat) (acc : jsstring) :
  (lo + n <= length buffer)%nat ->
  for_range (Z.of_nat lo) n
    (fun i binary => binary ++ String_fromCharCode (get buffer i)) acc
  = acc ++ (byte_to_Z <$> take n (drop lo buffer)).
Proof.
  revert lo acc. induction n as [|n IH]; intros lo acc Hn; simpl.
  - rewrite app_nil_r. reflexivity.
  - destruct (lookup_lt_is_Some_2 buffer lo ltac:(lia)) as [b Hb].
    assert (Hget : get buffer (Z.of_nat lo) = Num (byte_to_Z b))
      by (unfold get; rewrite decide_True by lia; rewrite Nat2Z.id, Hb; reflexivity).
    rewrite Hget.
    replace (Z.of_nat lo + 1) with (Z.of_nat (S lo)) by lia.
    rewrite IH by lia.
    rewrite (drop_S buffer b lo Hb). simpl.
    rewrite <- app_assoc. simpl. do 3 f_equal.
    pose proof (byte_to_Z_range b). apply Z.mod_small. lia.
Qed.

Lemma bytesToBase64_btoa (btoa : jsstring -> result jsstring)
    (type : jsstring) (buffer : Uint8Array) :
  Base64Writer.bytesToBase64 btoa type buffer
  = (try! encoded := btoa (byte_to_Z <$> buffer) in Ok (type ++ encoded)).
Proof.
  unfold Base64Writer.bytesToBase64, for_loop.
  replace (Z.to_nat (len buffer - 0)) with (length buffer) by (unfold len; lia).
  pose proof (binary_loop buffer (length buffer) 0 [] ltac:(lia)) as Hloop.
  change (Z.of_nat 0) with 0 in Hloop. rewrite Hloop.
  rewrite drop_0, take_ge by lia. reflexivity.
Qed.

(** X13. [bytesToBase64] hands [btoa] a string with one code unit per byte
    of the buffer, in order, each equal to the byte and so below 256 (the
    range outside which [btoa] throws), and returns the type prefix
    followed by what [btoa] returns; an exception of [btoa] is passed
    on. *)
Theorem bytesToBase64_binary (btoa : jsstring -> result jsstring)
    (type : jsstring) (buffer : Uint8Array) :
  let binary := byte_to_Z <$> buffer in
  Base64Writer.bytesToBase64 btoa type buffer
  = (try! encoded := btoa binary in Ok (type ++ encoded)) /\
  length binary = length buffer /\
  Forall (fun unit => 0 <= unit < 256) binary.
Proof.
  intros binary. split; [|split].
  - apply bytesToBase64_btoa.
  - subst binary. apply length_fmap.
  - subst binary. apply Forall_fmap, Forall_forall. intros b _. apply byte_to_Z_range.
Qed.

Lemma lookup_writeOptions (options : option object) (level : value) (k : string) :
  Writer.forwarded (Some (Main.writeOptions options level)) !! k
  = if decide (k = "level"%string) then Some level else Writer.forwarded options !! k.
Proof.
  rewrite lookup_forwarded. unfold Main.writeOptions, Writer.forwarded, Object_assign.
  rewrite !lookup_union, lookup_empty. case_decide as Hk.
  - subst k. rewrite lookup_singleton_eq.
    destruct (default ∅ options !! "level"%string); reflexivity.
  - rewrite lookup_singleton_ne by congruence.
    destruct (default ∅ options !! k), (Writer.defaults !! k); reflexivity.
Qed.

(** X14. The replaced [toDataURL].  For a type other than [undefined] and
    ['image/png'] it returns what the original [toDataURL] returns and
    does not run the encoder.  Otherwise the compressor is called with the
    level computed from the quality argument, whatever level the options
    given to [replaceToDataURL] name, and with those options (or the
    defaults) for every other property; the result is the prefix
    ['data:image/png;base64,'] followed by [btoa] of the bytes that
    [write] returns. *)
Theorem toDataURL_level (crc32 : Z -> Uint8Array -> Z -> Z -> Z)
    (deflate : Uint8Array -> object -> result Uint8Array)
    (btoa : jsstring -> result jsstring)
    (options : option object) (imageData : Filter.ImageData)
    (toDataURLOld : result jsstring) (type : option jsstring) (level : value) :
  let forwarded := Writer.forwarded (Some (Main.writeOptions options level)) in
  forwarded !! "level"%string = Some level /\
  (forall k, k <> "level"%string -> forwarded !! k = Writer.forwarded options !! k) /\
  (type <> None -> type <> Some (literal "image/png") ->
   Main.toDataURL crc32 deflate btoa options imageData toDataURLOld type level
   = toDataURLOld) /\
  (type = None \/ type = Some (literal "image/png") ->
   forall filtered, Filter.filter imageData = Ok filtered ->
     Main.toDataURL crc32 deflate btoa options imageData toDataURLOld type level
     = try! compressed := deflate filtered forwarded in
       try! encoded :=
         btoa (byte_to_Z <$> Spec.png crc32 (Filter.width imageData)
                               (Filter.height imageData) compressed) in
       Ok (literal "data:image/png;base64," ++ encoded)).
Proof.
  intros forwarded. subst forwarded.
  split; [rewrite lookup_writeOptions, decide_True by reflexivity; reflexivity|].
  split; [intros k Hk; rewrite lookup_writeOptions, decide_False by exact Hk; reflexivity|].
  split.
  - intros Hnone Hpng. unfold Main.toDataURL.
    rewrite decide_False by (intros [?|?]; contradiction). reflexivity.
  - intros Htype filtered Hfilter. unfold Main.toDataURL.
    rewrite decide_True by exact Htype.
    rewrite (write_calls_deflate crc32 deflate imageData _ filtered Hfilter).
    destruct (deflate filtered _) as [compressed|e]; simpl; [|reflexivity].
    apply bytesToBase64_btoa.
Qed.

Lemma toDataURL_level_witness :
  Main.toDataURL Samples.crc_zero Samples.deflate_identity (fun s => Ok s)
    (Some Samples.level_five) Samples.red_1x1 (Throw TypeError)
    (Some (literal "image/jpeg")) (VNum 0)
  = Throw TypeError /\
  exists url,
    Main.toDataURL Samples.crc_zero Samples.deflate_identity (fun s => Ok s)
      (Some Samples.level_five) Samples.red_1x1 (Throw TypeError) None (VNum 0)
    = Ok (literal "data:image/png;base64," ++ url).
Proof.
  split.
  - destruct (toDataURL_level Samples.crc_zero Samples.deflate_identity (fun s => Ok s)
                (Some Samples.level_five) Samples.red_1x1 (Throw TypeError)
                (Some (literal "image/jpeg")) (VNum 0)) as (_ & _ & Hother & _).
    apply Hother; discriminate.
  - destruct (toDataURL_level Samples.crc_zero Samples.deflate_identity (fun s => Ok s)
                (Some Samples.level_five) Samples.red_1x1 (Throw TypeError)
                None (VNum 0)) as (_ & _ & _ & Hpng).
    eexists. rewrite (Hpng ltac:(left; reflexivity) [x01; xff; x00; x00; xff] eq_refl).
    reflexivity.
Defined.

(** ** Buffers longer or shorter than the dimensions *)

Lemma for_loop_store_value (f : Z -> number) (pos w : Z) (dst : Uint8Array) (idx : nat) :
  pos <= Z.of_nat idx < pos + w -> (idx < length dst)%nat ->
  for_loop 0 w (fun i a => store a (pos + i) (f i)) dst !! idx
  = Some (ToUint8 (f (Z.of_nat idx - pos))).
Proof.
  intros Hin Hlen. unfold for_loop. rewrite lookup_for_range_store.
  rewrite decide_True by lia. reflexivity.
Qed.

Lemma sub_NaN_l (y : number) : sub NaN y = NaN.
Proof. destruct y; reflexivity. Qed.

(** X15. A row that starts at or beyond the end of the pixel buffer is
    transformed without an exception by each of the entries 1 to 4, and
    every byte written for it is zero. *)
Theorem transform_beyond_buffer (t : Z) (d : Uint8Array) (p w : Z)
    (dst : Uint8Array) (pos b : Z) :
  1 <= t <= 4 -> len d <= p ->
  exists e dst',
    Filter.FILTER_TYPES_at t = Ok e /\
    Filter.entry_filter e d p w dst pos b = Ok dst' /\
    length dst' = length dst /\
    forall idx : nat,
      pos <= Z.of_nat idx < pos + w -> (idx < length dst)%nat -> dst' !! idx = Some x00.
Proof.
  intros Ht Hbeyond.
  assert (Hget : forall i, 0 <= i -> get d (p + i) = NaN)
    by (intros i Hi; apply get_beyond; lia).
  assert (t = 1 \/ t = 2 \/ t = 3 \/ t = 4) as [-> | [-> | [-> | ->]]] by lia;
    (eexists; eexists; split; [reflexivity|]; split; [reflexivity|];
     split; [apply length_for_range_store|]);
    intros idx Hin Hlen;
    (etransitivity; [apply (for_loop_store_value _ pos); assumption|]);
    cbv beta zeta; rewrite Hget by lia; rewrite sub_NaN_l; reflexivity.
Qed.

Lemma transform_beyond_buffer_witness :
  exists e dst',
    Filter.FILTER_TYPES_at 4 = Ok e /\
    Filter.entry_filter e (Filter.data Samples.truncated_a) 8 4
      [x09; x09; x09; x09; x09] 1 4 = Ok dst' /\
    dst' !! 1%nat = Some x00.
Proof.
  destruct (transform_beyond_buffer 4 (Filter.data Samples.truncated_a) 8 4
              [x09; x09; x09; x09; x09] 1 4 ltac:(lia) ltac:(unfold len; simpl; lia))
    as (e & dst' & He & Hdst' & _ & Hzero).
  exists e, dst'. split; [exact He|]. split; [exact Hdst'|].
  apply Hzero; simpl; lia.
Defined.

Lemma rows_determine (bw h : Z) (out1 out2 : Uint8Array) :
  0 <= bw -> 0 <= h ->
  len out1 = (bw + 1) * h -> len out2 = (bw + 1) * h ->
  (forall r, 0 <= r < h -> Spec.filteredRow bw out1 r = Spec.filteredRow bw out2 r) ->
  out1 = out2.
Proof.
  intros Hbw Hh Hlen1 Hlen2 Hrows. unfold len in *.
  apply list_eq. intros idx.
  destruct (decide (idx < length out1)%nat) as [Hin|Hout].
  - set (r := Z.of_nat idx / (bw + 1)). set (j := Z.of_nat idx mod (bw + 1)).
    pose proof (Z.div_mod (Z.of_nat idx) (bw + 1) ltac:(lia)) as Hdm. fold r j in Hdm.
    pose proof (Z.mod_pos_bound (Z.of_nat idx) (bw + 1) ltac:(lia)) as Hj. fold j in Hj.
    assert (Hr : 0 <= r < h).
    { split; [apply Z.div_pos; lia | apply Z.div_lt_upper_bound; nia]. }
    pose proof (Hrows r Hr) as Hrow.
    apply (f_equal (fun l => l !! Z.to_nat j)) in Hrow.
    unfold Spec.filteredRow in Hrow.
    rewrite !lookup_take_lt, !lookup_drop in Hrow by lia.
    replace (Z.to_nat (r * (bw + 1)) + Z.to_nat j)%nat with idx in Hrow by nia.
    exact Hrow.
  - rewrite !(proj2 (lookup_ge_None _ _)) by lia. reflexivity.
Qed.

Lemma scanline_app (img : Filter.ImageData) (extra : list byte) (r : Z) :
  0 <= Filter.width img ->
  Spec.byteWidth img * Filter.height img <= len (Filter.data img) ->
  0 <= r < Filter.height img ->
  Spec.scanline {| Filter.width := Filter.width img; Filter.height := Filter.height img;
                   Filter.data := Filter.data img ++ extra |} r
  = Spec.scanline img r.
Proof.
  intros Hw Hcov Hr. unfold Spec.scanline, Spec.byteWidth in *. simpl. unfold Spec.bpp in *.
  unfold len in Hcov.
  rewrite drop_app_le by nia. apply take_app_le. rewrite length_drop. nia.
Qed.

(** X16. [filter] never reads past [width * height * 4] bytes: appending
    any bytes to the pixel buffer of a valid image leaves the filtered
    buffer unchanged. *)
Theorem filter_ignores_trailing_bytes (img : Filter.ImageData) (extra : list byte) :
  Spec.valid img ->
  Filter.filter {| Filter.width := Filter.width img; Filter.height := Filter.height img;
                   Filter.data := Filter.data img ++ extra |}
  = Filter.filter img.
Proof.
  intros Hvalid.
  destruct (valid_covers img Hvalid) as (Hw & Hh & Hcov).
  set (img' := {| Filter.width := Filter.width img; Filter.height := Filter.height img;
                  Filter.data := Filter.data img ++ extra |}).
  assert (Hcov' : Spec.byteWidth img' * Filter.height img' <= len (Filter.data img')).
  { subst img'. unfold Spec.byteWidth in *. simpl. rewrite len_app.
    pose proof (len_nonneg extra). lia. }
  destruct (filter_rows img Hw Hcov Hh) as (out & Hout & Hlen & Hrows).
  destruct (filter_rows img' Hw Hcov' Hh) as (out' & Hout' & Hlen' & Hrows').
  rewrite Hout, Hout'. f_equal.
  assert (Hbw : Spec.byteWidth img' = Spec.byteWidth img) by reflexivity.
  rewrite Hbw in Hlen', Hrows'. change (Filter.height img') with (Filter.height img) in *.
  assert (0 <= Spec.byteWidth img) by (unfold Spec.byteWidth, Spec.bpp; lia).
  apply (rows_determine (Spec.byteWidth img) (Filter.height img)); try assumption.
  intros r Hr. rewrite (Hrows r Hr), (Hrows' r Hr).
  unfold Spec.encodedRow, Spec.prior. rewrite Hbw.
  subst img'. rewrite scanline_app by assumption.
  case_decide; [reflexivity|]. rewrite scanline_app by (try assumption; lia). reflexivity.
Qed.

Lemma filter_ignores_trailing_bytes_witness :
  Filter.filter {| Filter.width := 1; Filter.height := 1;
                   Filter.data := [xff; x00; x00; xff; x07; x07] |}
  = Filter.filter Samples.red_1x1.
Proof.
  apply (filter_ignores_trailing_bytes Samples.red_1x1 [x07; x07]).
  repeat split; reflexivity.
Defined.
